(** * BloomWatch: the bloom status classifier, the catalog filter and the
      image viewer, embedded from the TypeScript sources

    - [src/utils/bloomStatus.ts]       : [isBloomActive], [getBloomStatus]
    - [src/components/EventsList.tsx]  : [filteredEvents]
    - the image viewer component (ImageView): [goToImage], [goToPrevious],
      [goToNext], the tab buttons ([setViewMode]) and the reset effect.

    Part I holds the definitions, Part II the theorems. *)

From Stdlib Require Import ZArith QArith Qminmax List Bool String Ascii Lia.
From Stdlib Require Import Permutation.
Import ListNotations.
Open Scope Z_scope.

(* ===================================================================== *)
(** * Part I.  Definitions                                                *)
(* ===================================================================== *)

(** ** The JavaScript platform, as far as the sources use it *)
Module JS.

(** The numbers the sources compute with: time values and day counts are
    integers, and [NaN] is the time value of an Invalid Date.  Time values
    are bounded by 8.64e15 < 2^53 in magnitude, hence exact as doubles, and
    so are the comparisons below. *)
Inductive number : Type :=
| NaN
| Num (z : Z).

(** Relational operators: every comparison with [NaN] is false. *)
Definition lt (a b : number) : bool :=
  match a, b with Num x, Num y => x <? y | _, _ => false end.
Definition le (a b : number) : bool :=
  match a, b with Num x, Num y => x <=? y | _, _ => false end.
Definition gt (a b : number) : bool := lt b a.
Definition ge (a b : number) : bool := le b a.

Definition sub (a b : number) : number :=
  match a, b with Num x, Num y => Num (x - y) | _, _ => NaN end.

(** [Math.ceil(a / d)] for an integer [a] and a positive integer [d]. *)
Definition Math_ceil_div (a : number) (d : Z) : number :=
  match a with Num x => Num (- ((- x) / d)) | NaN => NaN end.

(** Truthiness of a possibly absent numeric property ([undefined], [0]
    and [NaN] are falsy). *)
Definition truthy (v : option number) : bool :=
  match v with
  | Some (Num z) => negb (z =? 0)
  | Some NaN | None => false
  end.

(** *** The wall clock

    [new Date()] reads the system clock.  A world carries the readings the
    clock will give, one per read, and the number of reads made so far;
    code that reads the clock is a state transformer over worlds. *)
Record World : Type := mkWorld { readings : nat -> Z; reads : nat }.

Definition M (A : Type) : Type := World -> A * World.
Definition ret {A} (a : A) : M A := fun w => (a, w).
Definition bind {A B} (m : M A) (k : A -> M B) : M B :=
  fun w => let (a, w') := m w in k a w'.

(** The instant the next [new Date()] observes. *)
Definition wall_clock (w : World) : Z := readings w (reads w).

(** [new Date()]: always a valid date, the current time value. *)
Definition new_Date : M number :=
  fun w => (Num (wall_clock w), mkWorld (readings w) (S (reads w))).

(** A world whose clock shows [t] at every read. *)
Definition frozen (t : Z) : World := mkWorld (fun _ => t) 0.

(** [Array.prototype.filter] with a callback that may read the clock. *)
Fixpoint filterM {A} (f : A -> M bool) (l : list A) : M (list A) :=
  match l with
  | [] => ret []
  | x :: l' =>
      bind (f x) (fun keep =>
      bind (filterM f l') (fun rest =>
      ret (if keep then x :: rest else rest)))
  end.

(** *** Date strings

    [new Date(s)] for the date-only ISO form [YYYY-MM-DD], which
    ECMAScript reads as midnight UTC.  A string of any other shape, or
    naming no calendar day, gives [NaN] here.  The general theorems of
    Part II do not depend on this table: they hold for any parser. *)
Definition digit (c : ascii) : option Z :=
  let n := Z.of_N (N_of_ascii c) in
  if (48 <=? n) && (n <=? 57) then Some (n - 48) else None.

Definition is_leap (y : Z) : bool :=
  ((y mod 4 =? 0) && negb (y mod 100 =? 0)) || (y mod 400 =? 0).

Definition days_in_month (y m : Z) : Z :=
  if m =? 2 then (if is_leap y then 29 else 28)
  else if (m =? 4) || (m =? 6) || (m =? 9) || (m =? 11) then 30
  else 31.

(** Days from 1970-01-01 to the civil date [y]-[m]-[d] (proleptic
    Gregorian calendar). *)
Definition days_from_civil (y m d : Z) : Z :=
  let y' := if m <=? 2 then y - 1 else y in
  let era := y' / 400 in
  let yoe := y' - era * 400 in
  let mp := if m <=? 2 then m + 9 else m - 3 in
  let doy := (153 * mp + 2) / 5 + d - 1 in
  let doe := yoe * 365 + yoe / 4 - yoe / 100 + doy in
  era * 146097 + doe - 719468.

Definition msPerDay : Z := 1000 * 60 * 60 * 24.

Definition Date_parse (s : string) : number :=
  match list_ascii_of_string s with
  | [y1; y2; y3; y4; "-"%char; m1; m2; "-"%char; d1; d2] =>
      match digit y1, digit y2, digit y3, digit y4,
            digit m1, digit m2, digit d1, digit d2 with
      | Some a, Some b, Some c, Some e, Some f, Some g, Some h, Some i =>
          let y := a * 1000 + b * 100 + c * 10 + e in
          let m := f * 10 + g in
          let d := h * 10 + i in
          if (1 <=? m) && (m <=? 12) && (1 <=? d) && (d <=? days_in_month y m)
          then Num (days_from_civil y m d * msPerDay)
          else NaN
      | _, _, _, _, _, _, _, _ => NaN
      end
  | _ => NaN
  end.

(** *** Strings

    The text the search reads (titles, locations, tags, the search term)
    is a JavaScript string: a sequence of UTF-16 code units, each a number
    below 65536. *)
Definition ustring : Type := list N.

(** The code units of a literal written with characters up to U+00FF. *)
Definition units (s : string) : ustring :=
  map N_of_ascii (list_ascii_of_string s).

(** [s.startsWith(t)] *)
Fixpoint starts_with (s t : ustring) : bool :=
  match t, s with
  | [], _ => true
  | _ :: _, [] => false
  | c :: t', d :: s' => (c =? d)%N && starts_with s' t'
  end.

(** [s.includes(t)]: [t] occurs in [s] at some position. *)
Fixpoint includes (s t : ustring) : bool :=
  if starts_with s t then true
  else match s with
       | [] => false
       | _ :: s' => includes s' t
       end.

(** [s === ""] *)
Definition is_empty (s : ustring) : bool :=
  match s with [] => true | _ :: _ => false end.

(** [String.prototype.toLowerCase] is the platform's, not the
    repository's: the search is defined over it as a parameter, and the
    general theorems of Part II hold for any such function.  What follows
    is its table (the Unicode lower-case mapping with the special casing
    of the capital sigma) on the strings whose code units lie in
    U+0000..U+00FF or among the Greek letters U+0391..U+03CE; the concrete
    scenarios use only such strings.  A code unit outside these ranges is
    left as it is, which is not what the platform does with every one of
    them. *)

(** On a code unit up to U+00FF the function works unit by unit: A-Z and
    the Latin-1 capitals U+00C0..U+00DE, except the multiplication sign
    U+00D7, move 32 up; every other unit stays. *)
Definition lower_latin1 (c : N) : N :=
  if ((65 <=? c) && (c <=? 90)
      || (192 <=? c) && (c <=? 222) && negb (c =? 215))%N
  then (c + 32)%N else c.

(** The Greek capitals U+0391..U+03AB (U+03A2 is unassigned). *)
Definition greek_capital (c : N) : bool :=
  ((913 <=? c) && (c <=? 939) && negb (c =? 930))%N.

(** The property Cased on these ranges: A-Z, a-z, U+00AA, U+00B5, U+00BA,
    U+00C0..U+00FF without the signs U+00D7 and U+00F7, and the Greek
    letters U+0391..U+03CE. *)
Definition cased (c : N) : bool :=
  ((65 <=? c) && (c <=? 90) || (97 <=? c) && (c <=? 122)
   || (c =? 170) || (c =? 181) || (c =? 186)
   || (192 <=? c) && (c <=? 255) && negb (c =? 215) && negb (c =? 247)
   || greek_capital c || (940 <=? c) && (c <=? 974))%N.

(** The property Case_Ignorable on these ranges: apostrophe, full stop,
    colon, circumflex, grave, and U+00A8, U+00AD, U+00AF, U+00B4, U+00B7,
    U+00B8. *)
Definition case_ignorable (c : N) : bool :=
  ((c =? 39) || (c =? 46) || (c =? 58) || (c =? 94) || (c =? 96)
   || (c =? 168) || (c =? 173) || (c =? 175) || (c =? 180) || (c =? 183)
   || (c =? 184))%N.

(** The second half of the condition Final_Sigma: what follows is a run
    of case-ignorable units and then a cased letter. *)
Fixpoint cased_follows (rest : ustring) : bool :=
  match rest with
  | [] => false
  | d :: rest' => cased d || case_ignorable d && cased_follows rest'
  end.

(** Lowering with the rule Final_Sigma of the Unicode special casing: a
    capital sigma (U+03A3) that is preceded by a cased letter and a run of
    case-ignorable units, and is not followed by such a run and a cased
    letter, becomes the final small sigma U+03C2; any other becomes the
    small sigma U+03C3.  [after_cased] tells whether what has been read
    ends in a cased letter and a run of case-ignorable units. *)
Fixpoint lower_from (after_cased : bool) (s : ustring) : ustring :=
  match s with
  | [] => []
  | c :: rest =>
      (if (c =? 931)%N
       then (if after_cased && negb (cased_follows rest)
             then 962 else 963)%N
       else if greek_capital c then (c + 32)%N
       else lower_latin1 c)
      :: lower_from (cased c || case_ignorable c && after_cased) rest
  end.

Definition toLowerCase (s : ustring) : ustring := lower_from false s.

(** [arr.some(p)] *)
Definition some {A} (p : A -> bool) (arr : list A) : bool := existsb p arr.

End JS.

Notation "x <- m ;; k" := (JS.bind m (fun x => k))
  (at level 61, m at next level, right associativity).


(** ** src/utils/bloomStatus.ts *)
Module BloomStatus.
Import JS.

Inductive Status : Type := active | upcoming | past.

(** The object [getBloomStatus] returns; [daysUntil] and [daysSince] are
    optional properties. *)
Record Result : Type := mkResult {
  isActive : bool;
  status : Status;
  daysUntil : option number;
  daysSince : option number
}.

Section Classifier.

(** [Date_of s] is the time value of [new Date(s)]. *)
Variable Date_of : string -> number.

Definition isBloomActive (peakTimeInterval : string * string) : M bool :=
  now <- new_Date ;;
  let '(startDate, endDate) := peakTimeInterval in
  let start := Date_of startDate in
  let end_ := Date_of endDate in
  ret (ge now start && le now end_).

Definition getBloomStatus (peakTimeInterval : string * string) : M Result :=
  now <- new_Date ;;
  let '(startDate, endDate) := peakTimeInterval in
  let start := Date_of startDate in
  let end_ := Date_of endDate in
  if ge now start && le now end_ then
    ret (mkResult true active None None)
  else if lt now start then
    let daysUntil := Math_ceil_div (sub start now) (1000 * 60 * 60 * 24) in
    ret (mkResult false upcoming (Some daysUntil) None)
  else
    let daysSince := Math_ceil_div (sub now end_) (1000 * 60 * 60 * 24) in
    ret (mkResult false past None (Some daysSince)).

End Classifier.

End BloomStatus.

(** ** src/components/EventsList.tsx *)
Module EventsList.
Import JS.
Import BloomStatus.

(** Modelled from the spec: the declaration of the event record
    ([SuperbloomEventData] with [peakTimeInterval], [images],
    [satelliteImages] and the optional [graphImages]) is not among the
    sources, which hold an older declaration; the fields are those of the
    spec's data model that the components read.  The display-only fields
    (coordinates, descriptions, season) are read by none of the code
    modelled here and are left out. *)
Record SuperbloomEventData : Type := mkEvent {
  id : Z;
  title : ustring;
  location : ustring;
  tags : list ustring;
  peakTimeInterval : string * string;
  images : list string;
  satelliteImages : list (Z * string);          (* year, image *)
  graphImages : option (list (string * string)) (* title, image *)
}.

(** The filter buttons: ["all" | "active" | "soon" | "inactive"]. *)
Inductive Filter : Type := All | Active | Soon | Inactive.

Definition status_eqb (a b : Status) : bool :=
  match a, b with
  | active, active | upcoming, upcoming | past, past => true
  | _, _ => false
  end.

Definition filter_eqb (a b : Filter) : bool :=
  match a, b with
  | All, All | Active, Active | Soon, Soon | Inactive, Inactive => true
  | _, _ => false
  end.

(** [v && v <= 50] and [v && v > 50] on an optional number. *)
Definition le_num (v : option number) (k : Z) : bool :=
  match v with Some n => le n (Num k) | None => false end.
Definition gt_num (v : option number) (k : Z) : bool :=
  match v with Some n => gt n (Num k) | None => false end.

(** The value of [matchesFilter], as the enclosing [&&] coerces it. *)
Definition matchesFilter (filter : Filter) (bloomStatus : Result) : bool :=
  filter_eqb filter All
  || (filter_eqb filter Active && status_eqb (status bloomStatus) active)
  || (filter_eqb filter Soon
      && status_eqb (status bloomStatus) upcoming
      && truthy (daysUntil bloomStatus)
      && le_num (daysUntil bloomStatus) 50)
  || (filter_eqb filter Inactive
      && (status_eqb (status bloomStatus) past
          || (status_eqb (status bloomStatus) upcoming
              && truthy (daysUntil bloomStatus)
              && gt_num (daysUntil bloomStatus) 50))).

Section Catalog.

Variable Date_of : string -> number.

(** [s.toLowerCase()], the platform's. *)
Variable toLowerCase : ustring -> ustring.

Definition matchesSearch (searchTerm : ustring) (event : SuperbloomEventData)
  : bool :=
  is_empty searchTerm
  || includes (toLowerCase (title event)) (toLowerCase searchTerm)
  || includes (toLowerCase (location event)) (toLowerCase searchTerm)
  || some (fun tag => includes (toLowerCase tag) (toLowerCase searchTerm))
          (tags event).

(** The callback of [events.filter]. *)
Definition keeps (filter : Filter) (searchTerm : ustring)
           (event : SuperbloomEventData) : M bool :=
  bloomStatus <- getBloomStatus Date_of (peakTimeInterval event) ;;
  ret (matchesFilter filter bloomStatus && matchesSearch searchTerm event).

Definition filteredEvents (events : list SuperbloomEventData)
           (filter : Filter) (searchTerm : ustring)
  : M (list SuperbloomEventData) :=
  filterM (keeps filter searchTerm) events.

End Catalog.

End EventsList.

(** ** The search match in the spec's words *)
Module SearchSpec.
Import JS.

(** [t] occurs in [s]: it is a substring of it. *)
Definition occurs (t s : ustring) : Prop :=
  exists pre post, s = pre ++ t ++ post.

(** [u] is a capital letter (A-Z, or a Latin-1 capital) and [l] its small
    form, 32 code points above. *)
Definition capital_of (u l : N) : Prop :=
  ((65 <= u <= 90) \/ (192 <= u <= 222 /\ u <> 215))%N
  /\ l = (u + 32)%N.

(** Two code units are the same letter, whatever their case. *)
Definition same_letter (c1 c2 : N) : Prop :=
  c1 = c2 \/ capital_of c1 c2 \/ capital_of c2 c1.

(** Two strings are equal up to letter case: of the same length, and the
    same letter at every position. *)
Definition ci_equal (a b : ustring) : Prop := Forall2 same_letter a b.

(** [term] is a case-insensitive substring of [field]: some stretch of
    [field] equals [term] up to letter case. *)
Definition ci_substring (term field : ustring) : Prop :=
  exists pre mid post, field = pre ++ mid ++ post /\ ci_equal mid term.

(** A string of code units up to U+00FF. *)
Definition latin1 (s : ustring) : Prop := Forall (fun c => (c <= 255)%N) s.

(** What is known of the platform's [toLowerCase] on such strings: it
    lowers them unit by unit. *)
Definition lowers_latin1 (toLowerCase : ustring -> ustring) : Prop :=
  forall s, latin1 s -> toLowerCase s = map lower_latin1 s.

End SearchSpec.

(** ** The image viewer component (ImageView) *)
Module ImageView.
Import EventsList.

Inductive ViewMode : Type := satellite | gallery | graph.

(** The component's [useState] cells.  [zoomPosition] holds the zoom
    origin in percent. *)
Record State : Type := mkState {
  viewMode : ViewMode;
  currentImageIndex : Z;
  currentSatelliteIndex : Z;
  currentGraphIndex : Z;
  isZoomed : bool;
  zoomPosition : Q * Q;
  imageLoaded : bool
}.

(** The setters; a handler's calls are applied together at its end, each
    replacing one cell. *)
Definition setViewMode (v : ViewMode) (s : State) : State :=
  mkState v (currentImageIndex s) (currentSatelliteIndex s)
          (currentGraphIndex s) (isZoomed s) (zoomPosition s) (imageLoaded s).
Definition setCurrentImageIndex (v : Z) (s : State) : State :=
  mkState (viewMode s) v (currentSatelliteIndex s)
          (currentGraphIndex s) (isZoomed s) (zoomPosition s) (imageLoaded s).
Definition setCurrentSatelliteIndex (v : Z) (s : State) : State :=
  mkState (viewMode s) (currentImageIndex s) v
          (currentGraphIndex s) (isZoomed s) (zoomPosition s) (imageLoaded s).
Definition setCurrentGraphIndex (v : Z) (s : State) : State :=
  mkState (viewMode s) (currentImageIndex s) (currentSatelliteIndex s)
          v (isZoomed s) (zoomPosition s) (imageLoaded s).
Definition setIsZoomed (v : bool) (s : State) : State :=
  mkState (viewMode s) (currentImageIndex s) (currentSatelliteIndex s)
          (currentGraphIndex s) v (zoomPosition s) (imageLoaded s).
Definition setImageLoaded (v : bool) (s : State) : State :=
  mkState (viewMode s) (currentImageIndex s) (currentSatelliteIndex s)
          (currentGraphIndex s) (isZoomed s) (zoomPosition s) v.

(** The initial values of the cells. *)
Definition initial : State :=
  mkState satellite 0 0 0 false (50 # 1, 50 # 1)%Q false.

(** The effect keyed on [selectedEvent?.id]. *)
Definition onEventChange (s : State) : State :=
  setImageLoaded false (setIsZoomed false (setViewMode satellite
    (setCurrentGraphIndex 0 (setCurrentSatelliteIndex 0
      (setCurrentImageIndex 0 s))))).

(** [selectedEvent?.images?.length] and its two siblings: [None] is
    [undefined]. *)
Definition images_length (selectedEvent : option SuperbloomEventData)
  : option Z :=
  match selectedEvent with
  | Some e => Some (Z.of_nat (List.length (images e)))
  | None => None
  end.
Definition satelliteImages_length (selectedEvent : option SuperbloomEventData)
  : option Z :=
  match selectedEvent with
  | Some e => Some (Z.of_nat (List.length (satelliteImages e)))
  | None => None
  end.
Definition graphImages_length (selectedEvent : option SuperbloomEventData)
  : option Z :=
  match selectedEvent with
  | Some e =>
      match graphImages e with
      | Some g => Some (Z.of_nat (List.length g))
      | None => None
      end
  | None => None
  end.

Definition goToImage (index : Z) (s : State) : State :=
  let s' :=
    match viewMode s with
    | gallery => setCurrentImageIndex index s
    | satellite => setCurrentSatelliteIndex index s
    | graph => setCurrentGraphIndex index s
    end in
  setImageLoaded false (setIsZoomed false s').

Definition goToPrevious (selectedEvent : option SuperbloomEventData)
           (s : State) : State :=
  match viewMode s with
  | gallery =>
      match images_length selectedEvent with
      | None | Some 0 => s
      | Some len =>
          let newIndex :=
            if currentImageIndex s =? 0 then len - 1
            else currentImageIndex s - 1 in
          setImageLoaded false (setIsZoomed false
            (setCurrentImageIndex newIndex s))
      end
  | satellite =>
      match satelliteImages_length selectedEvent with
      | None | Some 0 => s
      | Some len =>
          let newIndex :=
            if currentSatelliteIndex s =? 0 then len - 1
            else currentSatelliteIndex s - 1 in
          setImageLoaded false (setIsZoomed false
            (setCurrentSatelliteIndex newIndex s))
      end
  | graph =>
      match graphImages_length selectedEvent with
      | None | Some 0 => s
      | Some len =>
          let newIndex :=
            if currentGraphIndex s =? 0 then len - 1
            else currentGraphIndex s - 1 in
          setImageLoaded false (setIsZoomed false
            (setCurrentGraphIndex newIndex s))
      end
  end.

Definition goToNext (selectedEvent : option SuperbloomEventData)
           (s : State) : State :=
  match viewMode s with
  | gallery =>
      match images_length selectedEvent with
      | None | Some 0 => s
      | Some len =>
          let newIndex :=
            if currentImageIndex s =? len - 1 then 0
            else currentImageIndex s + 1 in
          setImageLoaded false (setIsZoomed false
            (setCurrentImageIndex newIndex s))
      end
  | satellite =>
      match satelliteImages_length selectedEvent with
      | None | Some 0 => s
      | Some len =>
          let newIndex :=
            if currentSatelliteIndex s =? len - 1 then 0
            else currentSatelliteIndex s + 1 in
          setImageLoaded false (setIsZoomed false
            (setCurrentSatelliteIndex newIndex s))
      end
  | graph =>
      match graphImages_length selectedEvent with
      | None | Some 0 => s
      | Some len =>
          let newIndex :=
            if currentGraphIndex s =? len - 1 then 0
            else currentGraphIndex s + 1 in
          setImageLoaded false (setIsZoomed false
            (setCurrentGraphIndex newIndex s))
      end
  end.

(** [currentData.length] and [currentIndex] of the render; with no event
    selected nothing is rendered and the length is taken as 0. *)
Definition currentData_length (selectedEvent : option SuperbloomEventData)
           (s : State) : Z :=
  match selectedEvent with
  | None => 0
  | Some e =>
      match viewMode s with
      | gallery => Z.of_nat (List.length (images e))
      | satellite => Z.of_nat (List.length (satelliteImages e))
      | graph =>
          match graphImages e with
          | Some g => Z.of_nat (List.length g)
          | None => 0
          end
      end
  end.

Definition currentIndex (s : State) : Z :=
  match viewMode s with
  | gallery => currentImageIndex s
  | satellite => currentSatelliteIndex s
  | graph => currentGraphIndex s
  end.

(** The navigation requests the controls and the keyboard issue, and a
    run of them. *)
Inductive Nav : Type :=
| Previous
| Next
| Image (index : Z).

Definition step (selectedEvent : option SuperbloomEventData)
           (s : State) (a : Nav) : State :=
  match a with
  | Previous => goToPrevious selectedEvent s
  | Next => goToNext selectedEvent s
  | Image index => goToImage index s
  end.

Definition run (selectedEvent : option SuperbloomEventData)
           (s : State) (l : list Nav) : State :=
  fold_left (step selectedEvent) l s.

(** The requests the rendered controls can issue: the year buttons and
    thumbnails are generated from the indices of the collection shown, so
    an [Image] request carries an index below its length. *)
Definition in_range (len : Z) (a : Nav) : bool :=
  match a with
  | Image index => (0 <=? index) && (index <? len)
  | Previous | Next => true
  end.

End ImageView.

(** ** Sample records, for the concrete scenarios *)
Module Samples.
Import EventsList.
Local Open Scope string_scope.

Definition three_images : SuperbloomEventData :=
  mkEvent 1 (JS.units "Antelope Valley") (JS.units "California")
          [JS.units "Superbloom"; JS.units "Desert"]
          ("2024-03-01", "2024-03-20")
          ["poppies-1.jpg"; "poppies-2.jpg"; "poppies-3.jpg"]
          [(2019, "sat-2019.png"); (2023, "sat-2023.png")] None.

Definition one_image : SuperbloomEventData :=
  mkEvent 2 (JS.units "Namaqualand") (JS.units "South Africa")
          [JS.units "Yearly"]
          ("2024-08-01", "2024-09-15") ["daisies.jpg"] [] None.

(** A record with a Greek title, U+039F U+0394 U+039F U+03A3 (a street),
    and the one-letter term U+03A3, the capital sigma. *)
Definition odos : SuperbloomEventData :=
  mkEvent 3 [927; 916; 927; 931]%N (JS.units "Athens") []
          ("2024-04-01", "2024-04-30") [] [] None.

Definition capital_sigma : JS.ustring := [931]%N.

End Samples.

(** ** The image viewer component: the remaining handlers and the render *)
Module ImageViewHandlers.
Import EventsList ImageView.

Definition setZoomPosition (v : Q * Q) (s : State) : State :=
  mkState (viewMode s) (currentImageIndex s) (currentSatelliteIndex s)
          (currentGraphIndex s) (isZoomed s) v (imageLoaded s).

(** [hasImages] of [handleImageClick]: the length of the collection of the
    active mode, [None] when it is [undefined]. *)
Definition hasImages (selectedEvent : option SuperbloomEventData)
           (s : State) : option Z :=
  match viewMode s with
  | gallery => images_length selectedEvent
  | satellite => satelliteImages_length selectedEvent
  | graph => graphImages_length selectedEvent
  end.

(** [x] and [y] are the pointer's position within the image container in
    percent, [((e.clientX - rect.left) / rect.width) * 100] and its
    vertical twin, as the platform computes them: finite numbers, which the
    handlers store or compare but do no arithmetic on. *)
Definition handleImageClick (selectedEvent : option SuperbloomEventData)
           (x y : Q) (s : State) : State :=
  match hasImages selectedEvent s with
  | None | Some 0 => s
  | Some _ =>
      if negb (isZoomed s) then setIsZoomed true (setZoomPosition (x, y) s)
      else setIsZoomed false s
  end.

Definition handleMouseMove (x y : Q) (s : State) : State :=
  if negb (isZoomed s) then s
  else setZoomPosition (Qmax 0 (Qmin 100 x), Qmax 0 (Qmin 100 y)) s.

(** [handleKeyDown]: the three tests are on one key, so at most one of
    them fires, on the state of the render the listener was bound in. *)
Definition handleKeyDown (selectedEvent : option SuperbloomEventData)
           (key : string) (s : State) : State :=
  if (key =? "ArrowLeft")%string then goToPrevious selectedEvent s
  else if (key =? "ArrowRight")%string then goToNext selectedEvent s
  else if (key =? "Escape")%string then setIsZoomed false s
  else s.

(** [onLoad] and [onError] of the image. *)
Definition onLoad (s : State) : State := setImageLoaded true s.
Definition onError (s : State) : State := setImageLoaded true s.

(** [arr[i]] for an integer [i]: [None] is [undefined]. *)
Definition at_index {A} (arr : list A) (i : Z) : option A :=
  if i <? 0 then None else nth_error arr (Z.to_nat i).

(** [currentImage] of the render, for a selected event. *)
Definition currentImage (e : SuperbloomEventData) (s : State)
  : option string :=
  match viewMode s with
  | gallery => at_index (images e) (currentImageIndex s)
  | satellite =>
      option_map snd (at_index (satelliteImages e) (currentSatelliteIndex s))
  | graph =>
      option_map snd
        (at_index (match graphImages e with Some g => g | None => [] end)
                  (currentGraphIndex s))
  end.

(** The render's test [currentData.length > 0 && currentImage]: the image
    area is shown, not the "No images available" placeholder. *)
Definition showsImage (e : SuperbloomEventData) (s : State) : bool :=
  (0 <? currentData_length (Some e) s)
  && match currentImage e s with
     | Some src => negb (src =? "")%string
     | None => false
     end.

(** The render's test [currentData.length > 1], which guards the two
    arrow buttons and the navigation bar. *)
Definition showsNavigation (selectedEvent : option SuperbloomEventData)
           (s : State) : bool :=
  1 <? currentData_length selectedEvent s.

(** The render's test [!imageLoaded], which guards the loading indicator
    laid over the image. *)
Definition showsSpinner (s : State) : bool := negb (imageLoaded s).

End ImageViewHandlers.

(** ** The page: the focused event and the viewer under it *)
Module Page.
Import EventsList ImageView ImageViewHandlers.

(** The page's [selectedEvent] cell and the viewer's cells below it. *)
Record App : Type := mkApp {
  selectedEvent : option SuperbloomEventData;
  viewer : State
}.

(** [selectedEvent?.id], the key of the viewer's reset effect. *)
Definition effect_key (o : option SuperbloomEventData) : option Z :=
  option_map id o.

Definition key_eqb (a b : option Z) : bool :=
  match a, b with
  | Some x, Some y => x =? y
  | None, None => true
  | _, _ => false
  end.

(** [selectedEvent?.id || null], handed to the list: an id of 0 is falsy. *)
Definition selectedEventId (a : App) : option Z :=
  match selectedEvent a with
  | Some e => if id e =? 0 then None else Some (id e)
  | None => None
  end.

(** [isSelected] of a card: [selectedEventId === event.id]. *)
Definition isSelected (a : App) (event : SuperbloomEventData) : bool :=
  match selectedEventId a with
  | Some i => i =? id event
  | None => false
  end.

(** [handleEventFocus]: the page stores the event, and the viewer's effect
    runs when its key has changed. *)
Definition handleEventFocus (event : SuperbloomEventData) (a : App) : App :=
  mkApp (Some event)
        (if key_eqb (effect_key (selectedEvent a)) (effect_key (Some event))
         then viewer a
         else onEventChange (viewer a)).

(** The one render between a change of the selected event and the run of
    the viewer's effect: the new event with the cells as they were. *)
Definition render_before_effect (event : SuperbloomEventData) (a : App)
  : App :=
  mkApp (Some event) (viewer a).

(** What the user and the platform can do to the page. *)
Inductive Input : Type :=
| Focus (event : SuperbloomEventData)
| Tab (m : ViewMode)
| Control (a : Nav)
| KeyDown (key : string)
| ClickImage (x y : Q)
| MouseMove (x y : Q)
| ImageLoaded
| ImageError.

Definition react (a : App) (i : Input) : App :=
  match i with
  | Focus event => handleEventFocus event a
  | Tab m => mkApp (selectedEvent a) (setViewMode m (viewer a))
  | Control c => mkApp (selectedEvent a) (step (selectedEvent a) (viewer a) c)
  | KeyDown key =>
      mkApp (selectedEvent a) (handleKeyDown (selectedEvent a) key (viewer a))
  | ClickImage x y =>
      mkApp (selectedEvent a) (handleImageClick (selectedEvent a) x y (viewer a))
  | MouseMove x y => mkApp (selectedEvent a) (handleMouseMove x y (viewer a))
  | ImageLoaded => mkApp (selectedEvent a) (onLoad (viewer a))
  | ImageError => mkApp (selectedEvent a) (onError (viewer a))
  end.

(** The page after mounting: no event, the viewer's initial cells. *)
Definition mounted : App := mkApp None initial.

(** The inputs the rendered page offers.  A card is one of the catalog's;
    the year buttons and thumbnails exist only for a selected event whose
    collection has more than one entry, one per index.  The other inputs
    are not restricted here. *)
Definition offered (catalog : list SuperbloomEventData) (a : App)
           (i : Input) : Prop :=
  match i with
  | Focus event => In event catalog
  | Control (Image index) =>
      selectedEvent a <> None
      /\ 1 < currentData_length (selectedEvent a) (viewer a)
      /\ 0 <= index < currentData_length (selectedEvent a) (viewer a)
  | _ => True
  end.

(** A session: each input is offered by the page it is given to. *)
Fixpoint session (catalog : list SuperbloomEventData) (a : App)
         (inputs : list Input) : Prop :=
  match inputs with
  | [] => True
  | i :: rest => offered catalog a i /\ session catalog (react a i) rest
  end.

Definition play (a : App) (inputs : list Input) : App :=
  fold_left react inputs a.

(** An index a render can use: 0, or a position of the collection. *)
Definition index_ok (index len : Z) : Prop :=
  index = 0 \/ 0 <= index < len.

(** Every mode's index fits the selected event's collection of that mode. *)
Definition indices_ok (a : App) : Prop :=
  let s := viewer a in
  let o := selectedEvent a in
  index_ok (currentImageIndex s)
           (currentData_length o (setViewMode gallery s))
  /\ index_ok (currentSatelliteIndex s)
              (currentData_length o (setViewMode satellite s))
  /\ index_ok (currentGraphIndex s)
              (currentData_length o (setViewMode graph s)).

End Page.

(** ** The earlier events list, which filters on the record's own flag *)
Module LegacyEventsList.
Import JS.

(** [SuperbloomEventData] as src/components/SuperbloomEvent.tsx declares
    it. *)
Record SuperbloomEventData : Type := mkEvent {
  id : Z;
  title : ustring;
  location : ustring;
  coordinates : Q * Q;                          (* lat, lng *)
  shortDescription : string;
  fullDescription : string;
  tags : list ustring;
  season : string;
  peakTime : string;
  isActive : bool
}.

(** The filter buttons: ['all' | 'active' | 'inactive']. *)
Inductive Filter : Type := All | Active | Inactive.

Definition filter_eqb (a b : Filter) : bool :=
  match a, b with
  | All, All | Active, Active | Inactive, Inactive => true
  | _, _ => false
  end.

Definition matchesFilter (filter : Filter) (event : SuperbloomEventData)
  : bool :=
  filter_eqb filter All
  || (filter_eqb filter Active && isActive event)
  || (filter_eqb filter Inactive && negb (isActive event)).

Section Search.

(** [s.toLowerCase()], the platform's. *)
Variable toLowerCase : ustring -> ustring.

Definition matchesSearch (searchTerm : ustring) (event : SuperbloomEventData)
  : bool :=
  is_empty searchTerm
  || includes (toLowerCase (title event)) (toLowerCase searchTerm)
  || includes (toLowerCase (location event)) (toLowerCase searchTerm)
  || some (fun tag => includes (toLowerCase tag) (toLowerCase searchTerm))
          (tags event).

Definition filteredEvents (events : list SuperbloomEventData)
           (filter : Filter) (searchTerm : ustring)
  : list SuperbloomEventData :=
  List.filter
    (fun event => matchesFilter filter event && matchesSearch searchTerm event)
    events.

End Search.

End LegacyEventsList.

(** ** Notions the properties of Part II are stated with *)
Module Notions.
Import JS BloomStatus.

(** [l1] is [l2] with some elements left out, the order kept. *)
Inductive subsequence {A} : list A -> list A -> Prop :=
| sub_nil : subsequence [] []
| sub_keep x l1 l2 : subsequence l1 l2 -> subsequence (x :: l1) (x :: l2)
| sub_drop x l1 l2 : subsequence l1 l2 -> subsequence l1 (x :: l2).

(** The clock shows [t] at every read from now on. *)
Definition steady (w : World) (t : Z) : Prop :=
  forall n, (reads w <= n)%nat -> readings w n = t.

(** The order in which an interval passes through the statuses. *)
Definition stage (s : Status) : Z :=
  match s with upcoming => 0 | active => 1 | past => 2 end.

End Notions.

(* ===================================================================== *)
(** * Part II.  Theorems                                                  *)
(* ===================================================================== *)

(** ** Facts about the platform model *)
Module JSFacts.
Import JS.

(** [Math.ceil(x / d)] is the least integer [q] with [x <= q * d]. *)
Lemma ceil_div_bounds (x d : Z) :
  0 < d -> (- ((- x) / d) - 1) * d < x <= - ((- x) / d) * d.
Proof.
  intros Hd.
  pose proof (Z.mul_div_le (- x) d Hd) as Hlo.
  pose proof (Z.mul_succ_div_gt (- x) d Hd) as Hhi.
  nia.
Qed.

Lemma ceil_div_unique (x d q : Z) :
  0 < d -> (q - 1) * d < x <= q * d -> - ((- x) / d) = q.
Proof.
  intros Hd Hq.
  pose proof (ceil_div_bounds x d Hd) as Hc.
  nia.
Qed.

Lemma ceil_div_pos (x d : Z) : 0 < d -> 0 < x -> 1 <= - ((- x) / d).
Proof.
  intros Hd Hx.
  pose proof (ceil_div_bounds x d Hd) as Hc.
  nia.
Qed.

(** Running a clock-reading computation. *)
Lemma new_Date_run (w : World) :
  new_Date w = (Num (wall_clock w), mkWorld (readings w) (S (reads w))).
Proof. reflexivity. Qed.

Lemma bind_run {A B} (m : M A) (k : A -> M B) (w : World) :
  bind m k w = k (fst (m w)) (snd (m w)).
Proof. unfold bind. destruct (m w); reflexivity. Qed.

End JSFacts.

(** ** The classifier *)
Module ClassifierSpec.
Import JS JSFacts BloomStatus.

(** Unfold one call of a classifier down to its branches. *)
Ltac classifier_run :=
  unfold getBloomStatus, isBloomActive;
  rewrite !bind_run, !new_Date_run; cbn [fst snd];
  unfold ret; cbn [fst snd].

(** Turn the boolean tests on valid dates into integer facts. *)
Ltac tests_to_Z :=
  unfold ge, gt, le, lt in *;
  repeat match goal with
  | H : context [Z.leb ?a ?b] |- _ => destruct (Z.leb_spec a b)
  | |- context [Z.leb ?a ?b] => destruct (Z.leb_spec a b)
  | H : context [Z.ltb ?a ?b] |- _ => destruct (Z.ltb_spec a b)
  | |- context [Z.ltb ?a ?b] => destruct (Z.ltb_spec a b)
  end;
  cbn [andb orb negb fst snd status isActive daysUntil daysSince] in *.

Section AnyParser.

Variable Date_of : string -> number.

(** The three branches of [getBloomStatus] on valid dates. *)
Lemma getBloomStatus_active startDate endDate s e w :
  Date_of startDate = Num s -> Date_of endDate = Num e ->
  s <= wall_clock w <= e ->
  fst (getBloomStatus Date_of (startDate, endDate) w)
  = mkResult true active None None.
Proof.
  intros Hs He Hin. classifier_run. rewrite Hs, He.
  tests_to_Z; try lia; reflexivity.
Qed.

Lemma getBloomStatus_upcoming startDate endDate s w :
  Date_of startDate = Num s ->
  wall_clock w < s ->
  fst (getBloomStatus Date_of (startDate, endDate) w)
  = mkResult false upcoming
      (Some (Num (- ((- (s - wall_clock w)) / msPerDay)))) None.
Proof.
  intros Hs Hlt. classifier_run. rewrite Hs.
  destruct (Date_of endDate) as [|e]; tests_to_Z; try lia; reflexivity.
Qed.

Lemma getBloomStatus_past startDate endDate s e w :
  Date_of startDate = Num s -> Date_of endDate = Num e ->
  s <= wall_clock w -> e < wall_clock w ->
  fst (getBloomStatus Date_of (startDate, endDate) w)
  = mkResult false past None
      (Some (Num (- ((- (wall_clock w - e)) / msPerDay)))).
Proof.
  intros Hs He Hge Hgt. classifier_run. rewrite Hs, He.
  tests_to_Z; try lia; reflexivity.
Qed.

(** Each call reads the clock once and changes nothing else. *)
Lemma getBloomStatus_world peakTimeInterval w :
  snd (getBloomStatus Date_of peakTimeInterval w)
  = mkWorld (readings w) (S (reads w)).
Proof.
  destruct peakTimeInterval as [startDate endDate]. classifier_run.
  destruct (ge _ _ && le _ _); [reflexivity|].
  destruct (lt _ _); reflexivity.
Qed.

(** An upcoming result always carries a day count of at least one. *)
Lemma upcoming_daysUntil peakTimeInterval w :
  status (fst (getBloomStatus Date_of peakTimeInterval w)) = upcoming ->
  exists d, daysUntil (fst (getBloomStatus Date_of peakTimeInterval w))
            = Some (Num d) /\ 1 <= d.
Proof.
  destruct peakTimeInterval as [startDate endDate]. classifier_run.
  destruct (ge _ _ && le _ _); [discriminate|].
  destruct (Date_of startDate) as [|s]; cbn [lt]; [discriminate|].
  destruct (Z.ltb_spec (wall_clock w) s); [|discriminate].
  intros _. cbn. eexists; split; [reflexivity|].
  apply ceil_div_pos; [reflexivity | lia].
Qed.

(** C1.  For an interval with start <= end and any instant now, the
    status is determined by the position of now: active exactly on
    [start, end] (both ends included, and then with no day count),
    upcoming exactly before start, past exactly after end. *)
Theorem getBloomStatus_partition startDate endDate s e w :
  Date_of startDate = Num s -> Date_of endDate = Num e -> s <= e ->
  let now := wall_clock w in
  let r := fst (getBloomStatus Date_of (startDate, endDate) w) in
  (status r = active <-> s <= now <= e) /\
  (status r = upcoming <-> now < s) /\
  (status r = past <-> e < now) /\
  (now = s \/ now = e -> r = mkResult true active None None).
Proof.
  intros Hs He Hse now r.
  destruct (Z_lt_le_dec now s) as [Hbefore|Hfrom].
  - subst r. rewrite (getBloomStatus_upcoming _ endDate _ _ Hs Hbefore).
    cbn [status]. repeat split; intros; try discriminate; try subst now; lia.
  - destruct (Z_le_gt_dec now e) as [Hin|Hafter].
    + subst r. rewrite (getBloomStatus_active _ _ _ _ _ Hs He (conj Hfrom Hin)).
      cbn [status]. repeat split; intros; try discriminate; try subst now; lia.
    + subst r. rewrite (getBloomStatus_past _ _ _ _ _ Hs He Hfrom).
      2: subst now; lia.
      cbn [status]. repeat split; intros; try discriminate; try subst now; lia.
Qed.

(** C10.  Read at the same instant, the two exported functions agree:
    [isBloomActive] is the [isActive] field of [getBloomStatus], and it
    is true exactly when the status is active. *)
Theorem isBloomActive_agrees peakTimeInterval w :
  fst (isBloomActive Date_of peakTimeInterval w)
  = isActive (fst (getBloomStatus Date_of peakTimeInterval w))
  /\ (fst (isBloomActive Date_of peakTimeInterval w) = true
      <-> status (fst (getBloomStatus Date_of peakTimeInterval w)) = active).
Proof.
  destruct peakTimeInterval as [startDate endDate]. classifier_run.
  destruct (ge _ _ && le _ _).
  - cbn; intuition.
  - destruct (lt _ _); cbn; intuition discriminate.
Qed.

End AnyParser.

Open Scope string_scope.

Lemma getBloomStatus_partition_witness :
  let w := frozen 1710028800000 in
  let r := fst (getBloomStatus Date_parse ("2024-03-01", "2024-03-20") w) in
  1709251200000 <= 1710892800000 /\
  (status r = active <-> 1709251200000 <= wall_clock w <= 1710892800000).
Proof.
  split; [lia|].
  apply (getBloomStatus_partition Date_parse "2024-03-01" "2024-03-20"
           1709251200000 1710892800000 (frozen 1710028800000));
    [reflexivity | reflexivity | lia].
Defined.

(** C7, as stated, fails: the classifier has no parameter for the current
    instant and reads the wall clock itself.  The same interval is
    classified differently in two worlds whose clocks differ, and the call
    leaves one more clock read behind. *)
Lemma getBloomStatus_observes_clock :
  let interval := ("2024-03-01", "2024-03-20") in
  let w1 := frozen 1710028800000 in
  let w2 := frozen 1708387200000 in
  status (fst (getBloomStatus Date_parse interval w1)) = active /\
  status (fst (getBloomStatus Date_parse interval w2)) = upcoming /\
  fst (getBloomStatus Date_parse interval w1)
    <> fst (getBloomStatus Date_parse interval w2) /\
  reads (snd (getBloomStatus Date_parse interval w1)) = S (reads w1).
Proof.
  cbv zeta. repeat split; try reflexivity.
  vm_compute. discriminate.
Qed.

(** C7, amended.  The classifier takes the interval alone and reads the
    current instant from the wall clock, once; its result is determined
    by the interval and that reading: two evaluations on the same interval
    in worlds whose clocks show the same instant give identical results. *)
Theorem getBloomStatus_deterministic
        (Date_of : string -> number) peakTimeInterval w1 w2 :
  wall_clock w1 = wall_clock w2 ->
  fst (getBloomStatus Date_of peakTimeInterval w1)
  = fst (getBloomStatus Date_of peakTimeInterval w2)
  /\ snd (getBloomStatus Date_of peakTimeInterval w1)
     = mkWorld (readings w1) (S (reads w1)).
Proof.
  intros Hclock. split; [|apply getBloomStatus_world].
  destruct peakTimeInterval as [startDate endDate].
  unfold getBloomStatus. rewrite !bind_run, !new_Date_run. cbn [fst snd].
  rewrite Hclock.
  destruct (ge _ _ && le _ _); [reflexivity|].
  destruct (lt _ _); reflexivity.
Qed.

Lemma getBloomStatus_deterministic_witness :
  let w1 := frozen 1710028800000 in
  let w2 := mkWorld (fun n => 1710028800000 + Z.of_nat n) 0 in
  wall_clock w1 = wall_clock w2 /\
  fst (getBloomStatus Date_parse ("2024-03-01", "2024-03-20") w1)
  = fst (getBloomStatus Date_parse ("2024-03-01", "2024-03-20") w2).
Proof.
  split; [reflexivity|].
  apply (getBloomStatus_deterministic Date_parse ("2024-03-01", "2024-03-20")
           (frozen 1710028800000)
           (mkWorld (fun n => 1710028800000 + Z.of_nat n) 0)).
  reflexivity.
Defined.

(** C9, as stated, fails: 2024 is a leap year, so from 2024-02-20 to
    2024-03-01 there are ten days, not nine. *)
Lemma scenario_daysUntil_is_not_9 :
  let w := frozen 1708387200000 in
  let r := fst (getBloomStatus Date_parse ("2024-03-01", "2024-03-20") w) in
  Date_parse "2024-02-20" = Num (wall_clock w) /\
  status r = upcoming /\
  daysUntil r = Some (Num 10) /\
  daysUntil r <> Some (Num 9).
Proof.
  cbv zeta. repeat split; try reflexivity.
  vm_compute. discriminate.
Qed.

(** C9, amended.  For the interval ("2024-03-01", "2024-03-20") and any
    instant of the UTC day 2024-02-20, its midnight included, the result
    is upcoming with daysUntil = 10, the least number of whole days that
    covers start - now. *)
Theorem scenario_upcoming_daysUntil_10 w t :
  Date_parse "2024-02-20" = Num t ->
  t <= wall_clock w < t + msPerDay ->
  fst (getBloomStatus Date_parse ("2024-03-01", "2024-03-20") w)
  = mkResult false upcoming (Some (Num 10)) None
  /\ (10 - 1) * msPerDay < 1709251200000 - wall_clock w <= 10 * msPerDay.
Proof.
  intros Ht Hday.
  assert (t = 1708387200000) as -> by (vm_compute in Ht; congruence).
  unfold msPerDay in *.
  split; [|lia].
  rewrite (getBloomStatus_upcoming Date_parse "2024-03-01" "2024-03-20"
             1709251200000 w eq_refl) by lia.
  do 3 f_equal. apply ceil_div_unique; unfold msPerDay; lia.
Qed.

Lemma scenario_upcoming_daysUntil_10_witness :
  let w := frozen 1708387200000 in
  Date_parse "2024-02-20" = Num 1708387200000 /\
  1708387200000 <= wall_clock w < 1708387200000 + msPerDay /\
  fst (getBloomStatus Date_parse ("2024-03-01", "2024-03-20") w)
  = mkResult false upcoming (Some (Num 10)) None.
Proof.
  split; [reflexivity|]. split; [vm_compute; split; [discriminate | reflexivity]|].
  apply (scenario_upcoming_daysUntil_10 (frozen 1708387200000) 1708387200000);
    [reflexivity | vm_compute; split; [discriminate | reflexivity]].
Defined.

End ClassifierSpec.

(** ** Strings: [includes] and lowering *)
Module StringFacts.
Import JS SearchSpec.

Lemma starts_with_spec (s t : ustring) :
  starts_with s t = true <-> exists post, s = t ++ post.
Proof.
  revert s. induction t as [|c t IH]; intros s.
  - destruct s; cbn; split; eauto.
  - destruct s as [|d s]; cbn.
    + split; [discriminate | intros [post H]; discriminate].
    + rewrite andb_true_iff, N.eqb_eq, IH. split.
      * intros [-> [post ->]]. now exists post.
      * intros [post H]. injection H as -> ->. split; [reflexivity | eauto].
Qed.

Lemma includes_spec (s t : ustring) :
  includes s t = true <-> occurs t s.
Proof.
  unfold occurs. induction s as [|d s IH].
  - cbn [includes]. destruct (starts_with [] t) eqn:Hp.
    + apply starts_with_spec in Hp as [post Hp].
      split; [intros _; exists [], post; exact Hp | reflexivity].
    + split; [discriminate|]. intros (pre & post & H).
      destruct pre; [|discriminate].
      assert (starts_with [] t = true) by (apply starts_with_spec; eauto).
      congruence.
  - cbn [includes]. destruct (starts_with (d :: s) t) eqn:Hp.
    + apply starts_with_spec in Hp as [post Hp].
      split; [intros _; exists [], post; exact Hp | reflexivity].
    + rewrite IH. split.
      * intros (pre & post & H). exists (d :: pre), post.
        cbn. congruence.
      * intros (pre & post & H). destruct pre as [|d' pre].
        -- assert (starts_with (d :: s) t = true)
             by (apply starts_with_spec; eauto).
           congruence.
        -- cbn in H. injection H as _ H. eauto.
Qed.

(** The test of [lower_latin1] picks out the capital letters. *)
Lemma capital_test_spec (n : N) :
  ((65 <=? n) && (n <=? 90)
   || (192 <=? n) && (n <=? 222) && negb (n =? 215))%N = true
  <-> ((65 <= n <= 90) \/ (192 <= n <= 222 /\ n <> 215))%N.
Proof.
  rewrite orb_true_iff, !andb_true_iff, negb_true_iff, !N.leb_le, N.eqb_neq.
  tauto.
Qed.

(** Lowering identifies exactly the code units that are the same letter. *)
Lemma lower_latin1_same_letter (c1 c2 : N) :
  lower_latin1 c1 = lower_latin1 c2 <-> same_letter c1 c2.
Proof.
  unfold same_letter, capital_of, lower_latin1.
  destruct (((65 <=? c1) && (c1 <=? 90)
             || (192 <=? c1) && (c1 <=? 222) && negb (c1 =? 215))%N) eqn:U1;
    destruct (((65 <=? c2) && (c2 <=? 90)
               || (192 <=? c2) && (c2 <=? 222) && negb (c2 =? 215))%N) eqn:U2;
    repeat match goal with
    | H : _ = false |- _ => apply not_true_iff_false in H
    end;
    rewrite capital_test_spec in U1, U2; lia.
Qed.

(** Equality up to letter case is equality of the strings lowered unit by
    unit. *)
Lemma ci_equal_lower (a b : ustring) :
  ci_equal a b <-> map lower_latin1 a = map lower_latin1 b.
Proof.
  unfold ci_equal. split.
  - induction 1 as [|c1 c2 s1 s2 Hc _ IH]; cbn; [reflexivity|].
    apply lower_latin1_same_letter in Hc. congruence.
  - revert b. induction a as [|c1 a IH]; intros [|c2 b] H; cbn in H;
      try discriminate.
    + constructor.
    + injection H as Hc H. constructor.
      * now apply lower_latin1_same_letter.
      * now apply IH.
Qed.

(** After unit-by-unit lowering of both sides, [includes] is the spec's
    case-insensitive substring relation. *)
Lemma includes_lower_spec (field term : ustring) :
  includes (map lower_latin1 field) (map lower_latin1 term) = true
  <-> ci_substring term field.
Proof.
  unfold ci_substring.
  rewrite includes_spec. unfold occurs. split.
  - intros (pre & post & H).
    apply map_eq_app in H as (pre' & rest & -> & Hpre & H).
    apply map_eq_app in H as (mid & post' & -> & Hmid & Hpost).
    exists pre', mid, post'. split; [reflexivity|]. now apply ci_equal_lower.
  - intros (pre & mid & post & -> & Hmid).
    apply ci_equal_lower in Hmid.
    exists (map lower_latin1 pre), (map lower_latin1 post).
    now rewrite !map_app, Hmid.
Qed.

Lemma latin1_app (a b : ustring) : latin1 (a ++ b) <-> latin1 a /\ latin1 b.
Proof. apply Forall_app. Qed.

(** The table of Part I lowers strings of code units up to U+00FF unit by
    unit, as the platform does. *)
Lemma lower_from_latin1 (s : ustring) : forall after_cased,
  latin1 s -> lower_from after_cased s = map lower_latin1 s.
Proof.
  induction s as [|c s IH]; intros after_cased H; [reflexivity|].
  inversion H as [|? ? Hc Hs]; subst. cbn [lower_from map].
  rewrite (IH _ Hs). f_equal.
  destruct (N.eqb_spec c 931); [lia|].
  unfold greek_capital.
  destruct (N.leb_spec 913 c); [lia|]. reflexivity.
Qed.

Lemma toLowerCase_lowers_latin1 : lowers_latin1 toLowerCase.
Proof. intros s H. now apply lower_from_latin1. Qed.

Lemma units_latin1 (s : string) : latin1 (units s).
Proof.
  unfold units, latin1. apply Forall_map, Forall_forall. intros c _.
  pose proof (N_ascii_bounded c). lia.
Qed.

End StringFacts.

(** ** The catalog filter *)
Module CatalogSpec.
Import JS JSFacts StringFacts BloomStatus EventsList.
Open Scope string_scope.

Lemma filterM_ext {A} (f g : A -> M bool) (l : list A) (w : World) :
  (forall x w', f x w' = g x w') -> filterM f l w = filterM g l w.
Proof.
  intros Hfg. revert w. induction l as [|x l IH]; intros w; cbn [filterM].
  - reflexivity.
  - rewrite !bind_run, Hfg, IH. reflexivity.
Qed.

(** Search terms with the same lowered form, both empty or both not,
    match the same events. *)
Lemma matchesSearch_ci (toLowerCase : ustring -> ustring)
      (t1 t2 : ustring) (event : SuperbloomEventData) :
  toLowerCase t1 = toLowerCase t2 -> is_empty t1 = is_empty t2 ->
  matchesSearch toLowerCase t1 event = matchesSearch toLowerCase t2 event.
Proof.
  intros H He. unfold matchesSearch. now rewrite H, He.
Qed.

Lemma some_spec {A} (p : A -> bool) (l : list A) :
  some p l = true <-> exists x, In x l /\ p x = true.
Proof. apply existsb_exists. Qed.

Section AnyParser.

Variable Date_of : string -> number.
Variable toLowerCase : ustring -> ustring.

Lemma keeps_run filter searchTerm event w :
  fst (keeps Date_of toLowerCase filter searchTerm event w)
  = matchesFilter filter
      (fst (getBloomStatus Date_of (peakTimeInterval event) w))
    && matchesSearch toLowerCase searchTerm event.
Proof. unfold keeps. rewrite bind_run. reflexivity. Qed.

(** C4.  On the classifier's result for an event, the "soon" filter
    matches exactly the upcoming results with daysUntil <= 50, and the
    "inactive" filter exactly the past results and the upcoming ones
    with daysUntil > 50; an event is kept when its status matches and
    the search matches.  The threshold is the literal 50. *)
Theorem status_filter_soon_inactive event searchTerm w :
  let r := fst (getBloomStatus Date_of (peakTimeInterval event) w) in
  (matchesFilter Soon r = true <->
     status r = upcoming /\
     exists d, daysUntil r = Some (Num d) /\ d <= 50) /\
  (matchesFilter Inactive r = true <->
     status r = past \/
     (status r = upcoming /\
      exists d, daysUntil r = Some (Num d) /\ 50 < d)) /\
  (forall filter,
     fst (keeps Date_of toLowerCase filter searchTerm event w)
     = matchesFilter filter r && matchesSearch toLowerCase searchTerm event).
Proof.
  intros r. split; [|split; [|intros; apply keeps_run]].
  - unfold matchesFilter. cbn [filter_eqb andb orb].
    destruct (status r) eqn:Hst; cbn [status_eqb andb].
    + split; [discriminate | intros [? _]; discriminate].
    + destruct (ClassifierSpec.upcoming_daysUntil Date_of _ w Hst) as (d & Hd & Hpos).
      fold r in Hd. rewrite Hd. cbn [truthy le_num le].
      destruct (Z.eqb_spec d 0); [lia|]. cbn [negb andb].
      destruct (Z.leb_spec d 50); split;
        try discriminate; try reflexivity.
      * intros _. split; [reflexivity|]. exists d. split; [reflexivity|lia].
      * intros [_ (d' & Hd' & Hle)]. injection Hd' as <-. lia.
    + split; [discriminate | intros [? _]; discriminate].
  - unfold matchesFilter. cbn [filter_eqb andb orb].
    destruct (status r) eqn:Hst; cbn [status_eqb andb orb].
    + split; [discriminate | intros [?|[? _]]; discriminate].
    + destruct (ClassifierSpec.upcoming_daysUntil Date_of _ w Hst) as (d & Hd & Hpos).
      fold r in Hd. rewrite Hd. cbn [truthy gt_num gt lt].
      destruct (Z.eqb_spec d 0); [lia|]. cbn [negb andb].
      destruct (Z.ltb_spec 50 d); split;
        try discriminate; try reflexivity.
      * intros _. right. split; [reflexivity|].
        exists d. split; [reflexivity|lia].
      * intros [?|[_ (d' & Hd' & Hlt)]]; [discriminate|].
        injection Hd' as <-. lia.
    + split; [intros _; left; reflexivity | reflexivity].
Qed.

(** C3, amended.  For an interval with start > end the classifier
    returns as for any other interval and does not swap the pair; it
    signals nothing.  The result is upcoming with a day count while
    now < start and past with a day count from then on, never active,
    and the catalog does not exclude the record: the "active" filter
    never selects it, and exactly one of "soon" and "inactive" does. *)
Theorem reversed_interval_is_classified startDate endDate s e w :
  Date_of startDate = Num s -> Date_of endDate = Num e -> e < s ->
  let now := wall_clock w in
  let r := fst (getBloomStatus Date_of (startDate, endDate) w) in
  status r <> active /\
  (now < s ->
   r = mkResult false upcoming
         (Some (Num (- ((- (s - now)) / msPerDay)))) None) /\
  (s <= now ->
   r = mkResult false past None
         (Some (Num (- ((- (now - e)) / msPerDay))))) /\
  (e <= now <= s ->
   status (fst (getBloomStatus Date_of (endDate, startDate) w)) = active) /\
  matchesFilter Active r = false /\
  matchesFilter Soon r = negb (matchesFilter Inactive r).
Proof.
  intros Hs He Hes now r.
  assert (now < s -> r = mkResult false upcoming
            (Some (Num (- ((- (s - now)) / msPerDay)))) None) as Hup.
  { intros Hlt. apply (ClassifierSpec.getBloomStatus_upcoming
                         Date_of _ endDate _ _ Hs Hlt). }
  assert (s <= now -> r = mkResult false past None
            (Some (Num (- ((- (now - e)) / msPerDay))))) as Hpast.
  { intros Hle. apply (ClassifierSpec.getBloomStatus_past
                         Date_of _ _ _ _ _ Hs He Hle). subst now. lia. }
  repeat split; auto.
  - destruct (Z_lt_le_dec now s) as [H|H];
      [rewrite (Hup H) | rewrite (Hpast H)]; discriminate.
  - intros Hin.
    now rewrite (ClassifierSpec.getBloomStatus_active
                   Date_of _ _ _ _ _ He Hs Hin).
  - destruct (Z_lt_le_dec now s) as [H|H];
      [rewrite (Hup H) | rewrite (Hpast H)]; reflexivity.
  - destruct (Z_lt_le_dec now s) as [H|H];
      [rewrite (Hup H) | rewrite (Hpast H)]; [|reflexivity].
    unfold matchesFilter.
    cbn [filter_eqb status_eqb status daysUntil andb orb
         truthy le_num gt_num le gt lt].
    assert (1 <= - ((- (s - now)) / msPerDay)) as Hpos
        by (apply ceil_div_pos; [reflexivity | lia]).
    destruct (Z.eqb_spec (- ((- (s - now)) / msPerDay)) 0); [lia|].
    cbn [negb andb].
    destruct (Z.leb_spec (- ((- (s - now)) / msPerDay)) 50),
             (Z.ltb_spec 50 (- ((- (s - now)) / msPerDay)));
      try reflexivity; lia.
Qed.

End AnyParser.

(** C3, as stated, fails: a record whose interval runs from 2024-03-20
    back to 2024-03-01, read on 2024-04-01, gets the ordinary result
    "past, 31 days since" and is listed under the "inactive" filter. *)
Lemma reversed_interval_not_excluded :
  let event := mkEvent 7 (units "Carrizo Plain") (units "California")
                       [units "Rare"]
                       ("2024-03-20", "2024-03-01") [] [] None in
  let w := frozen 1711929600000 in
  gt (Date_parse "2024-03-20") (Date_parse "2024-03-01") = true /\
  fst (getBloomStatus Date_parse (peakTimeInterval event) w)
  = mkResult false past None (Some (Num 31)) /\
  fst (filteredEvents Date_parse toLowerCase [event] Inactive [] w) = [event].
Proof. cbv zeta. repeat split; vm_compute; reflexivity. Qed.

Lemma reversed_interval_is_classified_witness :
  let w := frozen 1711929600000 in
  let r := fst (getBloomStatus Date_parse ("2024-03-20", "2024-03-01") w) in
  1709251200000 < 1710892800000 /\
  status r <> active /\
  matchesFilter Soon r = negb (matchesFilter Inactive r).
Proof.
  split; [lia|].
  pose proof (reversed_interval_is_classified Date_parse
                "2024-03-20" "2024-03-01" 1710892800000 1709251200000
                (frozen 1711929600000) eq_refl eq_refl ltac:(lia)) as H.
  cbv zeta in *. split; apply H.
Defined.

(** C8, as stated, fails.  The test lowers both sides with [toLowerCase]
    and looks for the lowered term in the lowered field, and [toLowerCase]
    depends on what surrounds a letter.  The title U+039F U+0394 U+039F
    U+03A3 ends in a capital sigma, which is lowered to the final small
    sigma U+03C2; the term made of the capital sigma alone is lowered to
    the small sigma U+03C3.  So the term is not found in a title it occurs
    in as it is written. *)
Lemma capital_sigma_not_found :
  SearchSpec.occurs Samples.capital_sigma (title Samples.odos) /\
  SearchSpec.ci_substring Samples.capital_sigma (title Samples.odos) /\
  toLowerCase (title Samples.odos) = [959; 948; 959; 962]%N /\
  toLowerCase Samples.capital_sigma = [963]%N /\
  matchesSearch toLowerCase Samples.capital_sigma Samples.odos = false.
Proof.
  repeat split; try reflexivity.
  - exists [927; 916; 927]%N, []. reflexivity.
  - exists [927; 916; 927]%N, [931]%N, []. split; [reflexivity|].
    constructor; [now left | constructor].
Qed.

(** C8, amended.  For every catalog and every search term, the search
    match holds exactly when the term is empty or the lowered term occurs
    in the lowered title, the lowered location or a lowered tag, lowered
    by [toLowerCase] on both sides (one match suffices); the empty term
    matches every event; terms with the same lowered form give the same
    filtered list.  Where [toLowerCase] works unit by unit, as on strings
    of code units up to U+00FF, "ANTELOPE" and "antelope" give the same
    filtered list for every catalog, and the test is a case-insensitive
    substring test, letter by letter. *)
Theorem matchesSearch_lowered_substring (toLowerCase : ustring -> ustring) :
  (forall searchTerm event,
     matchesSearch toLowerCase searchTerm event = true <->
     searchTerm = []
     \/ SearchSpec.occurs (toLowerCase searchTerm) (toLowerCase (title event))
     \/ SearchSpec.occurs (toLowerCase searchTerm)
                          (toLowerCase (location event))
     \/ exists tag, In tag (tags event)
                    /\ SearchSpec.occurs (toLowerCase searchTerm)
                                         (toLowerCase tag)) /\
  (forall event, matchesSearch toLowerCase [] event = true) /\
  (forall Date_of events filter t1 t2 w,
     toLowerCase t1 = toLowerCase t2 -> (t1 = [] <-> t2 = []) ->
     filteredEvents Date_of toLowerCase events filter t1 w
     = filteredEvents Date_of toLowerCase events filter t2 w) /\
  (SearchSpec.lowers_latin1 toLowerCase ->
   (forall Date_of events filter w,
      filteredEvents Date_of toLowerCase events filter (units "ANTELOPE") w
      = filteredEvents Date_of toLowerCase events filter (units "antelope") w)
   /\
   (forall term field,
      SearchSpec.latin1 term -> SearchSpec.latin1 field ->
      (includes (toLowerCase field) (toLowerCase term) = true
       <-> SearchSpec.ci_substring term field))).
Proof.
  assert (forall Date_of events filter t1 t2 w,
            toLowerCase t1 = toLowerCase t2 -> is_empty t1 = is_empty t2 ->
            filteredEvents Date_of toLowerCase events filter t1 w
            = filteredEvents Date_of toLowerCase events filter t2 w) as Hsame.
  { intros Date_of events filter t1 t2 w H He. unfold filteredEvents.
    apply filterM_ext. intros event w'. unfold keeps.
    now rewrite (matchesSearch_ci toLowerCase t1 t2 event H He). }
  split; [|split; [|split; [|intros Hlow; split]]].
  - intros searchTerm event. unfold matchesSearch.
    rewrite !orb_true_iff, !includes_spec, some_spec.
    assert (is_empty searchTerm = true <-> searchTerm = []) as ->
        by (destruct searchTerm; cbn; split; congruence).
    split.
    + intros [[[H|H]|H]|(tag & Hin & H)]; auto.
      right. right. right. exists tag.
      split; [exact Hin | now apply includes_spec].
    + intros [H|[H|[H|(tag & Hin & H)]]]; auto.
      right. exists tag.
      split; [exact Hin | now apply includes_spec].
  - intros event. reflexivity.
  - intros Date_of events filter t1 t2 w H He. apply Hsame; [exact H|].
    destruct He as [He1 He2].
    destruct t1, t2; cbn; try reflexivity.
    + specialize (He1 eq_refl). discriminate.
    + specialize (He2 eq_refl). discriminate.
  - intros Date_of events filter w. apply Hsame; [|reflexivity].
    rewrite !Hlow by apply units_latin1. reflexivity.
  - intros term field Hterm Hfield.
    rewrite (Hlow term Hterm), (Hlow field Hfield).
    apply includes_lower_spec.
Qed.

Lemma matchesSearch_lowered_substring_witness :
  let events := [Samples.three_images; Samples.one_image] in
  let w := frozen 1710028800000 in
  SearchSpec.lowers_latin1 toLowerCase /\
  filteredEvents Date_parse toLowerCase events All (units "ANTELOPE") w
  = filteredEvents Date_parse toLowerCase events All (units "antelope") w.
Proof.
  split; [exact toLowerCase_lowers_latin1|].
  apply (matchesSearch_lowered_substring toLowerCase).
  exact toLowerCase_lowers_latin1.
Defined.

End CatalogSpec.

(** ** The image viewer *)
Module ViewerSpec.
Import EventsList ImageView ImageViewHandlers Samples.

Ltac viewer_unfold :=
  unfold step, goToPrevious, goToNext, goToImage, currentIndex,
    currentData_length, images_length, satelliteImages_length,
    graphImages_length, setImageLoaded, setIsZoomed, setCurrentImageIndex,
    setCurrentSatelliteIndex, setCurrentGraphIndex, setViewMode in *;
  cbn [viewMode currentImageIndex currentSatelliteIndex currentGraphIndex
       isZoomed zoomPosition imageLoaded] in *.

(** Split on the mode, on the event and on the collection's length. *)
Ltac viewer_cases s selectedEvent :=
  destruct s as [mode gi si ci zoomed origin loaded];
  destruct selectedEvent as [event|];
  destruct mode; viewer_unfold;
  try (destruct (graphImages event) as [graphs|]);
  repeat match goal with
  | |- context [Z.of_nat (List.length ?l)] =>
      let n := fresh "n" in
      let Hn := fresh "Hn" in
      remember (Z.of_nat (List.length l)) as n eqn:Hn;
      assert (0 <= n) by (subst n; apply Nat2Z.is_nonneg);
      clear Hn; destruct n
  | H : context [Z.of_nat (List.length ?l)] |- _ =>
      let n := fresh "n" in
      let Hn := fresh "Hn" in
      remember (Z.of_nat (List.length l)) as n eqn:Hn;
      assert (0 <= n) by (subst n; apply Nat2Z.is_nonneg);
      clear Hn; destruct n
  end;
  cbn [viewMode currentImageIndex currentSatelliteIndex currentGraphIndex
       isZoomed zoomPosition imageLoaded] in *.

Ltac tests_to_Z :=
  repeat match goal with
  | |- context [Z.eqb ?a ?b] => destruct (Z.eqb_spec a b)
  | H : context [Z.eqb ?a ?b] |- _ => destruct (Z.eqb_spec a b)
  end.

(** No navigation request changes the mode. *)
Lemma step_viewMode selectedEvent s a :
  viewMode (step selectedEvent s a) = viewMode s.
Proof.
  destruct a; viewer_cases s selectedEvent; reflexivity.
Qed.

Lemma currentData_length_viewMode selectedEvent s s' :
  viewMode s' = viewMode s ->
  currentData_length selectedEvent s' = currentData_length selectedEvent s.
Proof. unfold currentData_length. now intros ->. Qed.

(** One in-range request keeps a valid index valid. *)
Lemma step_in_range selectedEvent s a :
  0 <= currentIndex s < currentData_length selectedEvent s ->
  in_range (currentData_length selectedEvent s) a = true ->
  0 <= currentIndex (step selectedEvent s a)
    < currentData_length selectedEvent s.
Proof.
  intros Hidx Ha. destruct a as [| |index]; cbn [in_range] in Ha.
  - viewer_cases s selectedEvent; tests_to_Z; lia.
  - viewer_cases s selectedEvent; tests_to_Z; lia.
  - apply andb_prop in Ha as [Hlo Hhi].
    apply Z.leb_le in Hlo. apply Z.ltb_lt in Hhi.
    unfold step. clear Hidx.
    destruct s as [mode gi si ci zoomed origin loaded].
    destruct mode; cbn in *; lia.
Qed.

Lemma run_in_range selectedEvent l : forall s,
  0 <= currentIndex s < currentData_length selectedEvent s ->
  forallb (in_range (currentData_length selectedEvent s)) l = true ->
  viewMode (run selectedEvent s l) = viewMode s /\
  0 <= currentIndex (run selectedEvent s l)
    < currentData_length selectedEvent s.
Proof.
  induction l as [|a l IH]; intros s Hidx Hl; cbn [run fold_left].
  - auto.
  - cbn [forallb] in Hl. apply andb_prop in Hl as [Ha Hl].
    pose proof (step_viewMode selectedEvent s a) as Hmode.
    pose proof (currentData_length_viewMode selectedEvent _ _ Hmode) as Hlen.
    pose proof (step_in_range selectedEvent s a Hidx Ha) as Hstep.
    destruct (IH (step selectedEvent s a)) as [Hm Hi].
    + now rewrite Hlen.
    + now rewrite Hlen.
    + unfold run in *. rewrite Hm, Hmode. now rewrite Hlen in Hi.
Qed.

(** C2, as stated, fails: [goToImage] has no range check.  On a gallery
    of three images, [goToImage 5] moves the index from 0 to 5, outside
    the collection. *)
Lemma goToImage_out_of_range_sets_index :
  let s := setViewMode gallery initial in
  currentData_length (Some three_images) s = 3 /\
  currentIndex s = 0 /\
  currentIndex (goToImage 5 s) = 5 /\
  currentIndex (run (Some three_images) s [Image 5]) = 5 /\
  ~ (0 <= currentIndex (run (Some three_images) s [Image 5])
       < currentData_length (Some three_images)
           (run (Some three_images) s [Image 5])).
Proof.
  cbv zeta. repeat split; try reflexivity.
  vm_compute. intros [_ H]. discriminate.
Qed.

(** C2, amended.  [goToImage i] sets the active mode's index to i for
    every integer i, with no range check, and resets zoomed and
    imageLoaded; the mode and the other two indices stay.  From a state
    whose active index is within [0, length), any run of goToNext,
    goToPrevious and goToImage requests whose indices are within
    [0, length) leaves the active index within [0, length). *)
Theorem goToImage_sets_index_and_range_invariant selectedEvent s i l :
  (currentIndex (goToImage i s) = i /\
   viewMode (goToImage i s) = viewMode s /\
   isZoomed (goToImage i s) = false /\
   imageLoaded (goToImage i s) = false /\
   (viewMode s <> gallery ->
    currentImageIndex (goToImage i s) = currentImageIndex s) /\
   (viewMode s <> satellite ->
    currentSatelliteIndex (goToImage i s) = currentSatelliteIndex s) /\
   (viewMode s <> graph ->
    currentGraphIndex (goToImage i s) = currentGraphIndex s)) /\
  (0 <= currentIndex s < currentData_length selectedEvent s ->
   forallb (in_range (currentData_length selectedEvent s)) l = true ->
   0 <= currentIndex (run selectedEvent s l)
     < currentData_length selectedEvent (run selectedEvent s l)).
Proof.
  split.
  - destruct s as [mode gi si ci zoomed origin loaded].
    destruct mode; cbn; repeat split; congruence.
  - intros Hidx Hl.
    destruct (run_in_range selectedEvent l s Hidx Hl) as [Hm Hi].
    now rewrite (currentData_length_viewMode selectedEvent _ _ Hm).
Qed.

Lemma goToImage_sets_index_and_range_invariant_witness :
  let s := setViewMode gallery initial in
  let l := [Previous; Image 1; Next; Next; Next] in
  0 <= currentIndex s < currentData_length (Some three_images) s /\
  forallb (in_range (currentData_length (Some three_images) s)) l = true /\
  0 <= currentIndex (run (Some three_images) s l)
    < currentData_length (Some three_images) (run (Some three_images) s l).
Proof.
  split; [vm_compute; split; [discriminate | reflexivity]|].
  split; [reflexivity|].
  apply (goToImage_sets_index_and_range_invariant (Some three_images)
           (setViewMode gallery initial) 0
           [Previous; Image 1; Next; Next; Next]).
  - vm_compute; split; [discriminate | reflexivity].
  - reflexivity.
Defined.

(** On a collection of one element goToNext and goToPrevious keep the
    index but are not no-ops. *)
Lemma single_image_navigation_changes_state :
  let s := mkState gallery 0 0 0 true (50 # 1, 50 # 1)%Q true in
  currentData_length (Some one_image) s = 1 /\
  goToNext (Some one_image) s <> s /\
  goToPrevious (Some one_image) s <> s.
Proof.
  cbv zeta. repeat split; try reflexivity; vm_compute; discriminate.
Qed.

(** With two or more elements in the active collection, goToPrevious
    steps the active index back by one and from 0 to length-1, and
    goToNext steps it forward by one and from length-1 to 0.  With an
    empty collection (or no event) both are no-ops: the state is
    unchanged.  With exactly one element, at index 0, both leave the mode
    and the three indices unchanged. *)
Lemma navigation_wraps selectedEvent s :
  let len := currentData_length selectedEvent s in
  (2 <= len ->
   currentIndex (goToPrevious selectedEvent s)
     = (if currentIndex s =? 0 then len - 1 else currentIndex s - 1) /\
   currentIndex (goToNext selectedEvent s)
     = (if currentIndex s =? len - 1 then 0 else currentIndex s + 1)) /\
  (len = 0 ->
   goToPrevious selectedEvent s = s /\ goToNext selectedEvent s = s) /\
  (len = 1 -> currentIndex s = 0 ->
   forall s', s' = goToPrevious selectedEvent s
              \/ s' = goToNext selectedEvent s ->
     viewMode s' = viewMode s /\
     currentImageIndex s' = currentImageIndex s /\
     currentSatelliteIndex s' = currentSatelliteIndex s /\
     currentGraphIndex s' = currentGraphIndex s).
Proof.
  cbv zeta. split; [|split].
  - intros Hlen.
    split; viewer_cases s selectedEvent; tests_to_Z; first [reflexivity | lia].
  - intros Hlen.
    split; viewer_cases s selectedEvent; first [reflexivity | lia].
  - intros Hlen Hidx s' [-> | ->];
      viewer_cases s selectedEvent; tests_to_Z;
      repeat split; first [reflexivity | lia].
Qed.

Lemma navigation_wraps_witness :
  let s := setViewMode gallery initial in
  2 <= currentData_length (Some three_images) s /\
  currentIndex (goToPrevious (Some three_images) s) = 2.
Proof.
  split; [vm_compute; discriminate|].
  apply (navigation_wraps (Some three_images) (setViewMode gallery initial)).
  vm_compute; discriminate.
Defined.

(** C5.  With one image the render shows neither the arrows nor the
    navigation bar, but the keyboard still steps.  From a zoomed, loaded
    gallery view of an event's only image, the right and left arrow keys
    (goToNext and goToPrevious) keep the index at 0 and clear isZoomed and
    imageLoaded: the state changes where a no-op is expected, and the
    image, which is the same one and is not loaded again, is covered by
    the loading indicator. *)
Theorem single_image_arrow_key_clears_flags :
  let s := mkState gallery 0 0 0 true (30 # 1, 40 # 1)%Q true in
  let s' := mkState gallery 0 0 0 false (30 # 1, 40 # 1)%Q false in
  currentData_length (Some one_image) s = 1 /\
  currentIndex s = 0 /\
  showsNavigation (Some one_image) s = false /\
  goToNext (Some one_image) s = s' /\
  goToPrevious (Some one_image) s = s' /\
  handleKeyDown (Some one_image) "ArrowRight" s = s' /\
  handleKeyDown (Some one_image) "ArrowLeft" s = s' /\
  s' <> s /\
  currentImage one_image s' = currentImage one_image s /\
  showsSpinner s = false /\ showsSpinner s' = true.
Proof. cbv zeta. repeat split. discriminate. Qed.

(** What the tab buttons do: [setViewMode] replaces the mode and nothing
    else. *)
Lemma setViewMode_frame m s :
  viewMode (setViewMode m s) = m /\
  currentImageIndex (setViewMode m s) = currentImageIndex s /\
  currentSatelliteIndex (setViewMode m s) = currentSatelliteIndex s /\
  currentGraphIndex (setViewMode m s) = currentGraphIndex s /\
  isZoomed (setViewMode m s) = isZoomed s /\
  imageLoaded (setViewMode m s) = imageLoaded s.
Proof. repeat split. Qed.

(** The other paths that change the image shown reset both flags. *)
Lemma onEventChange_resets s :
  onEventChange s
  = mkState satellite 0 0 0 false (zoomPosition s) false.
Proof. reflexivity. Qed.

(** C6.  The tab buttons set the mode and keep the three indices, but
    they do not reset the flags: from a zoomed, loaded satellite view, a
    click on the gallery tab gives a zoomed, loaded gallery view. *)
Theorem tab_click_keeps_zoomed_and_loaded :
  let s := mkState satellite 0 1 0 true (25 # 1, 75 # 1)%Q true in
  setViewMode gallery s
  = mkState gallery 0 1 0 true (25 # 1, 75 # 1)%Q true /\
  isZoomed (setViewMode gallery s) = true /\
  imageLoaded (setViewMode gallery s) = true.
Proof. cbv zeta. repeat split. Qed.

End ViewerSpec.

(** ** Further properties of the classifier *)
Module ClassifierProps.
Import JS JSFacts BloomStatus Notions.
Import ClassifierSpec.

Section AnyParser.

Variable Date_of : string -> number.

(** The result's fields go together: [isActive] is set exactly for the
    active status, [daysUntil] is present exactly for upcoming and
    [daysSince] exactly for past, whatever the dates are. *)
Theorem result_fields_follow_status peakTimeInterval w :
  let r := fst (getBloomStatus Date_of peakTimeInterval w) in
  (isActive r = true <-> status r = active) /\
  (daysUntil r <> None <-> status r = upcoming) /\
  (daysSince r <> None <-> status r = past).
Proof.
  destruct peakTimeInterval as [startDate endDate]. classifier_run.
  destruct (ge _ _ && le _ _); [|destruct (lt _ _)]; cbn;
    repeat split; intros; try discriminate; try congruence.
Qed.

Lemma upcoming_bracket startDate endDate w :
  let r := fst (getBloomStatus Date_of (startDate, endDate) w) in
  status r = upcoming ->
  exists s d,
    Date_of startDate = Num s /\ daysUntil r = Some (Num d) /\
    1 <= d /\ (d - 1) * msPerDay < s - wall_clock w <= d * msPerDay.
Proof.
  cbv zeta. intros Hst.
  destruct (Date_of startDate) as [|s] eqn:Hs.
  - revert Hst. classifier_run. rewrite Hs.
    destruct (ge _ _ && le _ _); cbn; discriminate.
  - assert (wall_clock w < s) as Hlt.
    { revert Hst. classifier_run. rewrite Hs.
      destruct (ge _ _ && le _ _); [discriminate|]. cbn [lt].
      destruct (Z.ltb_spec (wall_clock w) s); [auto | discriminate]. }
    rewrite (getBloomStatus_upcoming Date_of startDate endDate s w Hs Hlt).
    exists s, (- ((- (s - wall_clock w)) / msPerDay)). cbn [daysUntil].
    repeat split; try apply ceil_div_bounds; try reflexivity.
    apply ceil_div_pos; [reflexivity | lia].
Qed.

(** An upcoming result counts the days to the start rounded up: the start
    date is valid, and [daysUntil] is the least d >= 1 such that d days
    cover start - now. *)
Theorem daysUntil_rounds_up startDate endDate w :
  let r := fst (getBloomStatus Date_of (startDate, endDate) w) in
  status r = upcoming ->
  exists s d,
    Date_of startDate = Num s /\ daysUntil r = Some (Num d) /\
    1 <= d /\ (d - 1) * msPerDay < s - wall_clock w <= d * msPerDay.
Proof. exact (upcoming_bracket startDate endDate w). Qed.

(** When both dates are valid, a past result counts the days since the end
    rounded up, and at least one. *)
Theorem daysSince_rounds_up startDate endDate s e w :
  let r := fst (getBloomStatus Date_of (startDate, endDate) w) in
  Date_of startDate = Num s -> Date_of endDate = Num e ->
  status r = past ->
  exists d,
    daysSince r = Some (Num d) /\
    1 <= d /\ (d - 1) * msPerDay < wall_clock w - e <= d * msPerDay.
Proof.
  cbv zeta. intros Hs He Hst.
  assert (s <= wall_clock w /\ e < wall_clock w) as [Hge Hgt].
  { revert Hst. classifier_run. rewrite Hs, He. unfold ge, le, lt.
    destruct (Z.leb_spec s (wall_clock w)), (Z.leb_spec (wall_clock w) e),
             (Z.ltb_spec (wall_clock w) s); cbn; try discriminate; lia. }
  rewrite (getBloomStatus_past Date_of _ _ _ _ _ Hs He Hge Hgt).
  exists (- ((- (wall_clock w - e)) / msPerDay)). cbn [daysSince].
  repeat split; try apply ceil_div_bounds; try reflexivity.
  apply ceil_div_pos; [reflexivity | lia].
Qed.

(** A start date that does not parse makes the interval past at every
    instant, with the day count computed from the end date.  An end date
    that does not parse makes the interval never active: it is upcoming,
    with its day count, before a valid start, and past with a [NaN] day
    count from the start on, or at every instant when the start does not
    parse either. *)
Theorem invalid_dates_are_past startDate endDate w :
  let r := fst (getBloomStatus Date_of (startDate, endDate) w) in
  (Date_of startDate = NaN ->
   r = mkResult false past None
         (Some (Math_ceil_div (sub (Num (wall_clock w)) (Date_of endDate))
                              msPerDay))) /\
  (Date_of endDate = NaN ->
   status r <> active /\
   (status r = past -> daysSince r = Some NaN) /\
   (forall s, Date_of startDate = Num s -> wall_clock w < s ->
      r = mkResult false upcoming
            (Some (Num (- ((- (s - wall_clock w)) / msPerDay)))) None) /\
   (forall s, Date_of startDate = Num s -> s <= wall_clock w ->
      r = mkResult false past None (Some NaN)) /\
   (Date_of startDate = NaN -> r = mkResult false past None (Some NaN))).
Proof.
  cbv zeta. split.
  - intros Hs. classifier_run. rewrite Hs. reflexivity.
  - intros He. classifier_run. rewrite He.
    unfold ge, le, lt. destruct (Date_of startDate) as [|s]; cbn.
    + repeat split; try discriminate; reflexivity.
    + rewrite andb_false_r.
      destruct (Z.ltb_spec (wall_clock w) s); cbn;
        repeat split; try discriminate; try reflexivity;
        intros s' [= <-] Hs'; first [reflexivity | lia].
Qed.

(** Time only moves an interval forward: from upcoming to active to past,
    never back, whatever the dates are. *)
Theorem status_never_goes_back peakTimeInterval w1 w2 :
  wall_clock w1 <= wall_clock w2 ->
  stage (status (fst (getBloomStatus Date_of peakTimeInterval w1)))
  <= stage (status (fst (getBloomStatus Date_of peakTimeInterval w2))).
Proof.
  intros Hle. destruct peakTimeInterval as [startDate endDate].
  classifier_run. unfold ge, le, lt.
  destruct (Date_of startDate) as [|s], (Date_of endDate) as [|e];
    cbn [andb]; rewrite ?andb_false_r;
    repeat match goal with
    | |- context [Z.leb ?a ?b] => destruct (Z.leb_spec a b)
    | |- context [Z.ltb ?a ?b] => destruct (Z.ltb_spec a b)
    end; cbn; lia.
Qed.

(** While an interval is upcoming the count of days never grows, and a
    whole number k of days later it is exactly k less. *)
Theorem daysUntil_counts_down peakTimeInterval w1 w2 :
  wall_clock w1 <= wall_clock w2 ->
  status (fst (getBloomStatus Date_of peakTimeInterval w2)) = upcoming ->
  exists d1 d2,
    daysUntil (fst (getBloomStatus Date_of peakTimeInterval w1))
      = Some (Num d1) /\
    daysUntil (fst (getBloomStatus Date_of peakTimeInterval w2))
      = Some (Num d2) /\
    d2 <= d1 /\
    (forall k, wall_clock w2 = wall_clock w1 + k * msPerDay -> d2 = d1 - k).
Proof.
  intros Hle Hst. destruct peakTimeInterval as [startDate endDate].
  destruct (upcoming_bracket startDate endDate w2 Hst)
    as (s & d2 & Hs & Hd2 & Hpos & Hbr).
  assert (wall_clock w2 < s) as Hlt2.
  { change msPerDay with 86400000 in Hbr. lia. }
  assert (wall_clock w1 < s) as Hlt1 by lia.
  rewrite (getBloomStatus_upcoming Date_of startDate endDate s w1 Hs Hlt1).
  rewrite (getBloomStatus_upcoming Date_of startDate endDate s w2 Hs Hlt2).
  do 2 eexists. cbn [daysUntil]. repeat split.
  - apply Z.opp_le_mono. rewrite !Z.opp_involutive.
    apply Z.div_le_mono; [reflexivity | lia].
  - intros k Hk. rewrite Hk.
    replace (- (s - (wall_clock w1 + k * msPerDay)))
      with (- (s - wall_clock w1) + k * msPerDay) by ring.
    rewrite Z.div_add by discriminate. ring.
Qed.

(** [isBloomActive] answers true exactly when both dates are valid and
    now lies between them, ends included. *)
Theorem isBloomActive_iff_within startDate endDate w :
  fst (isBloomActive Date_of (startDate, endDate) w) = true
  <-> exists s e, Date_of startDate = Num s /\ Date_of endDate = Num e
                  /\ s <= wall_clock w <= e.
Proof.
  classifier_run. unfold ge, le.
  destruct (Date_of startDate) as [|s], (Date_of endDate) as [|e]; cbn [andb].
  - split; [discriminate | intros (? & ? & ? & _); discriminate].
  - split; [discriminate | intros (? & ? & ? & _); discriminate].
  - rewrite andb_false_r.
    split; [discriminate | intros (? & ? & _ & ? & _); discriminate].
  - rewrite andb_true_iff, !Z.leb_le. split.
    + intros [? ?]. exists s, e. auto.
    + intros (s' & e' & Hs & He & ?). injection Hs as <-. injection He as <-.
      lia.
Qed.

End AnyParser.

Lemma daysUntil_rounds_up_witness :
  let w := frozen 1708387200001 in
  let r := fst (getBloomStatus Date_parse ("2024-03-01", "2024-03-20") w) in
  status r = upcoming /\
  exists s d,
    Date_parse "2024-03-01" = Num s /\ daysUntil r = Some (Num d) /\
    1 <= d /\ (d - 1) * msPerDay < s - wall_clock w <= d * msPerDay.
Proof.
  split; [reflexivity|].
  apply (daysUntil_rounds_up Date_parse "2024-03-01" "2024-03-20"
           (frozen 1708387200001)).
  reflexivity.
Defined.

Lemma daysSince_rounds_up_witness :
  let w := frozen 1711929600000 in
  let r := fst (getBloomStatus Date_parse ("2024-03-01", "2024-03-20") w) in
  Date_parse "2024-03-01" = Num 1709251200000 /\
  Date_parse "2024-03-20" = Num 1710892800000 /\
  status r = past /\
  exists d,
    daysSince r = Some (Num d) /\
    1 <= d /\ (d - 1) * msPerDay < wall_clock w - 1710892800000 <= d * msPerDay.
Proof.
  repeat (split; [reflexivity|]).
  apply (daysSince_rounds_up Date_parse "2024-03-01" "2024-03-20"
           1709251200000 1710892800000 (frozen 1711929600000));
    reflexivity.
Defined.

Lemma invalid_dates_are_past_witness :
  let w := frozen 1710028800000 in
  Date_parse "spring" = NaN /\
  fst (getBloomStatus Date_parse ("spring", "2024-03-20") w)
  = mkResult false past None (Some (Num (-10))) /\
  fst (getBloomStatus Date_parse ("2024-03-01", "spring") w)
  = mkResult false past None (Some NaN).
Proof.
  split; [reflexivity|]. split.
  - exact (proj1 (invalid_dates_are_past Date_parse "spring" "2024-03-20"
                    (frozen 1710028800000)) eq_refl).
  - apply (proj2 (invalid_dates_are_past Date_parse "2024-03-01" "spring"
                    (frozen 1710028800000)) eq_refl)
      with (s := 1709251200000); [reflexivity | vm_compute; discriminate].
Defined.

Lemma status_never_goes_back_witness :
  let w1 := frozen 1710028800000 in
  let w2 := frozen 1711929600000 in
  wall_clock w1 <= wall_clock w2 /\
  stage (status (fst (getBloomStatus Date_parse
                        ("2024-03-01", "2024-03-20") w1)))
  <= stage (status (fst (getBloomStatus Date_parse
                           ("2024-03-01", "2024-03-20") w2))).
Proof.
  split; [vm_compute; discriminate|].
  apply (status_never_goes_back Date_parse ("2024-03-01", "2024-03-20")
           (frozen 1710028800000) (frozen 1711929600000)).
  vm_compute; discriminate.
Defined.

Lemma daysUntil_counts_down_witness :
  let w1 := frozen 1708387200001 in
  let w2 := frozen 1708646400001 in
  wall_clock w1 <= wall_clock w2 /\
  status (fst (getBloomStatus Date_parse
                 ("2024-03-01", "2024-03-20") w2)) = upcoming /\
  exists d1 d2,
    daysUntil (fst (getBloomStatus Date_parse
                      ("2024-03-01", "2024-03-20") w1)) = Some (Num d1) /\
    daysUntil (fst (getBloomStatus Date_parse
                      ("2024-03-01", "2024-03-20") w2)) = Some (Num d2) /\
    d2 <= d1 /\
    (forall k, wall_clock w2 = wall_clock w1 + k * msPerDay -> d2 = d1 - k).
Proof.
  split; [vm_compute; discriminate|]. split; [reflexivity|].
  apply (daysUntil_counts_down Date_parse ("2024-03-01", "2024-03-20")
           (frozen 1708387200001) (frozen 1708646400001));
    [vm_compute; discriminate | reflexivity].
Defined.

End ClassifierProps.

(** ** Further properties of the catalog filter *)
Module CatalogProps.
Import JS JSFacts StringFacts BloomStatus EventsList Notions.
Local Open Scope list_scope.

(** A stretch of an occurring string occurs. *)
Lemma includes_part (s pre t post : ustring) :
  includes s (pre ++ t ++ post) = true -> includes s t = true.
Proof.
  rewrite !includes_spec. intros (a & b & ->).
  exists (a ++ pre), (post ++ b). now rewrite <- !app_assoc.
Qed.

Lemma includes_self (s : ustring) : includes s s = true.
Proof.
  apply includes_spec. exists [], []. cbn. now rewrite app_nil_r.
Qed.

Lemma filterM_run {A} (f : A -> M bool) (x : A) (l : list A) (w : World) :
  filterM f (x :: l) w
  = (if fst (f x w) then x :: fst (filterM f l (snd (f x w)))
     else fst (filterM f l (snd (f x w))),
     snd (filterM f l (snd (f x w)))).
Proof.
  cbn [filterM]. rewrite !bind_run. unfold ret. reflexivity.
Qed.

Lemma filterM_subsequence {A} (f : A -> M bool) (l : list A) : forall w,
  subsequence (fst (filterM f l w)) l.
Proof.
  induction l as [|x l IH]; intros w.
  - constructor.
  - rewrite filterM_run. cbn [fst].
    destruct (fst (f x w)); constructor; apply IH.
Qed.

Lemma filterM_Forall {A} (f : A -> M bool) (P : A -> Prop) (l : list A) :
  (forall x w, fst (f x w) = true -> P x) ->
  forall w, Forall P (fst (filterM f l w)).
Proof.
  intros HP. induction l as [|x l IH]; intros w.
  - constructor.
  - rewrite filterM_run. cbn [fst].
    destruct (fst (f x w)) eqn:Hx; [constructor; eauto | apply IH].
Qed.

(** A callback that accepts less, and reads the clock alike, keeps a
    subsequence of what the other keeps. *)
Lemma filterM_narrows {A} (f g : A -> M bool) (l : list A) :
  (forall x w, fst (f x w) = true -> fst (g x w) = true) ->
  (forall x w, snd (f x w) = snd (g x w)) ->
  forall w, subsequence (fst (filterM f l w)) (fst (filterM g l w))
            /\ snd (filterM f l w) = snd (filterM g l w).
Proof.
  intros Hfg Hw. induction l as [|x l IH]; intros w.
  - split; [constructor | reflexivity].
  - rewrite !filterM_run. cbn [fst snd]. rewrite <- Hw.
    destruct (IH (snd (f x w))) as [Hsub Hsnd]. split; [|exact Hsnd].
    destruct (fst (f x w)) eqn:Hf.
    + rewrite (Hfg _ _ Hf). now constructor.
    + destruct (fst (g x w)); [now constructor | exact Hsub].
Qed.

Section AnyParser.

Variable Date_of : string -> number.
Variable toLowerCase : ustring -> ustring.

Lemma keeps_world filter searchTerm event w :
  snd (keeps Date_of toLowerCase filter searchTerm event w)
  = mkWorld (readings w) (S (reads w)).
Proof.
  unfold keeps. rewrite bind_run. unfold ret. cbn [snd].
  apply ClassifierSpec.getBloomStatus_world.
Qed.

(** The filtered list is the catalog with some events left out: nothing is
    added, repeated or reordered, and every event listed matches the search
    term. *)
Theorem filteredEvents_subsequence events filter searchTerm w :
  let shown := fst (filteredEvents Date_of toLowerCase events filter searchTerm w) in
  subsequence shown events /\
  Forall (fun event => matchesSearch toLowerCase searchTerm event = true) shown.
Proof.
  cbv zeta. unfold filteredEvents. split.
  - apply filterM_subsequence.
  - apply filterM_Forall. intros event w' H.
    rewrite CatalogSpec.keeps_run in H. now apply andb_prop in H.
Qed.

(** With the "all" filter and no search term the whole catalog is listed,
    whatever the dates and the clock are. *)
Theorem filteredEvents_all_empty events w :
  fst (filteredEvents Date_of toLowerCase events All [] w) = events.
Proof.
  unfold filteredEvents. revert w.
  induction events as [|event events IH]; intros w; [reflexivity|].
  rewrite filterM_run. cbn [fst].
  rewrite CatalogSpec.keeps_run. cbn. now rewrite IH.
Qed.

(** For a search term of code units up to U+00FF, which [toLowerCase]
    lowers unit by unit, a longer term only narrows the list: for the same
    catalog, filter and clock, what is listed for [pre ++ term ++ post] is
    a subsequence of what is listed for [term]. *)
Theorem longer_term_narrows events filter pre term post w :
  SearchSpec.lowers_latin1 toLowerCase ->
  SearchSpec.latin1 (pre ++ term ++ post) ->
  subsequence
    (fst (filteredEvents Date_of toLowerCase events filter
            (pre ++ term ++ post) w))
    (fst (filteredEvents Date_of toLowerCase events filter term w)).
Proof.
  intros Hlow Hlat.
  assert (SearchSpec.latin1 term) as Hterm.
  { apply latin1_app in Hlat as [_ Hlat]. now apply latin1_app in Hlat. }
  assert (forall field,
            includes (toLowerCase field) (toLowerCase (pre ++ term ++ post))
            = true ->
            includes (toLowerCase field) (toLowerCase term) = true) as Hpart.
  { intros field. rewrite (Hlow _ Hlat), (Hlow _ Hterm), !map_app.
    apply includes_part. }
  unfold filteredEvents. apply filterM_narrows.
  - intros event w'. rewrite !CatalogSpec.keeps_run, !andb_true_iff.
    intros [Hf Hs]. split; [exact Hf|]. revert Hs. unfold matchesSearch.
    rewrite !orb_true_iff.
    intros [[[H|H]|H]|H].
    + destruct pre; [|discriminate]. destruct term; [|discriminate]. auto.
    + left. left. right. now apply Hpart.
    + left. right. now apply Hpart.
    + right. apply CatalogSpec.some_spec in H as (tag & Hin & H).
      apply CatalogSpec.some_spec. exists tag. split; [exact Hin|].
      now apply Hpart.
  - intros event w'. now rewrite !keeps_world.
Qed.

(** An event is found by any term whose lowered form is the lowered form
    of its whole title, of its whole location or of one of its tags: by
    the title, the location or a tag typed as it is written, and, where
    [toLowerCase] works unit by unit, as on code units up to U+00FF, typed
    in any letter case. *)
Theorem found_by_own_fields searchTerm event :
  (toLowerCase searchTerm = toLowerCase (title event)
   \/ toLowerCase searchTerm = toLowerCase (location event)
   \/ (exists tag, In tag (tags event)
                   /\ toLowerCase searchTerm = toLowerCase tag) ->
   matchesSearch toLowerCase searchTerm event = true) /\
  (searchTerm = title event \/ searchTerm = location event
   \/ In searchTerm (tags event) ->
   matchesSearch toLowerCase searchTerm event = true) /\
  (SearchSpec.lowers_latin1 toLowerCase ->
   SearchSpec.latin1 searchTerm ->
   (SearchSpec.latin1 (title event)
    /\ SearchSpec.ci_equal searchTerm (title event))
   \/ (SearchSpec.latin1 (location event)
       /\ SearchSpec.ci_equal searchTerm (location event))
   \/ (exists tag, In tag (tags event) /\ SearchSpec.latin1 tag
                   /\ SearchSpec.ci_equal searchTerm tag) ->
   matchesSearch toLowerCase searchTerm event = true).
Proof.
  assert (toLowerCase searchTerm = toLowerCase (title event)
          \/ toLowerCase searchTerm = toLowerCase (location event)
          \/ (exists tag, In tag (tags event)
                          /\ toLowerCase searchTerm = toLowerCase tag) ->
          matchesSearch toLowerCase searchTerm event = true) as Hmain.
  { unfold matchesSearch. rewrite !orb_true_iff.
    intros [H|[H|(tag & Hin & H)]].
    - left. left. right. rewrite H. apply includes_self.
    - left. right. rewrite H. apply includes_self.
    - right. apply CatalogSpec.some_spec. exists tag.
      split; [exact Hin|]. rewrite H. apply includes_self. }
  split; [exact Hmain|]. split.
  - intros [->|[->|Hin]]; apply Hmain; auto.
    right. right. exists searchTerm. auto.
  - intros Hlow Hterm H. apply Hmain.
    destruct H as [[Hl H]|[[Hl H]|(tag & Hin & Hl & H)]];
      apply ci_equal_lower in H.
    + left. now rewrite (Hlow _ Hterm), (Hlow _ Hl).
    + right. left. now rewrite (Hlow _ Hterm), (Hlow _ Hl).
    + right. right. exists tag. split; [exact Hin|].
      now rewrite (Hlow _ Hterm), (Hlow _ Hl).
Qed.

Lemma one_status_filter peakTimeInterval w :
  let r := fst (getBloomStatus Date_of peakTimeInterval w) in
  (matchesFilter Active r = true /\ matchesFilter Soon r = false
   /\ matchesFilter Inactive r = false)
  \/ (matchesFilter Active r = false /\ matchesFilter Soon r = true
      /\ matchesFilter Inactive r = false)
  \/ (matchesFilter Active r = false /\ matchesFilter Soon r = false
      /\ matchesFilter Inactive r = true).
Proof.
  intros r.
  unfold matchesFilter. cbn [filter_eqb andb orb].
  destruct (status r) eqn:Hst; cbn [status_eqb andb orb]; auto.
  destruct (ClassifierSpec.upcoming_daysUntil Date_of _ w Hst)
    as (d & Hd & Hpos).
  fold r in Hd. rewrite Hd. cbn [truthy le_num gt_num le gt lt].
  destruct (Z.eqb_spec d 0); [lia|]. cbn [negb andb].
  destruct (Z.leb_spec d 50), (Z.ltb_spec 50 d); auto; lia.
Qed.

(** At any instant an event falls under exactly one of the "active",
    "soon" and "inactive" filters, and under "all". *)
Theorem status_filters_partition event w :
  let r := fst (getBloomStatus Date_of (peakTimeInterval event) w) in
  matchesFilter All r = true /\
  ((matchesFilter Active r = true /\ matchesFilter Soon r = false
    /\ matchesFilter Inactive r = false)
   \/ (matchesFilter Active r = false /\ matchesFilter Soon r = true
       /\ matchesFilter Inactive r = false)
   \/ (matchesFilter Active r = false /\ matchesFilter Soon r = false
       /\ matchesFilter Inactive r = true)).
Proof.
  intros r. split; [reflexivity | apply one_status_filter].
Qed.

(** The result of the classifier depends on the world through the instant
    its clock shows only. *)
Lemma getBloomStatus_at_instant peakTimeInterval w1 w2 :
  wall_clock w1 = wall_clock w2 ->
  fst (getBloomStatus Date_of peakTimeInterval w1)
  = fst (getBloomStatus Date_of peakTimeInterval w2).
Proof.
  intros H. destruct peakTimeInterval as [startDate endDate].
  unfold getBloomStatus. rewrite !bind_run, !new_Date_run. cbn [fst snd].
  rewrite H.
  destruct (ge _ _ && le _ _); [reflexivity|].
  destruct (lt _ _); reflexivity.
Qed.

Lemma steady_next w t :
  steady w t -> steady (mkWorld (readings w) (S (reads w))) t.
Proof. intros H n Hn. cbn in *. apply H. lia. Qed.

Lemma steady_frozen t : steady (frozen t) t.
Proof. intros n _. reflexivity. Qed.

(** The test an event passes at the instant [t]. *)
Lemma keeps_steady filter searchTerm event w t :
  steady w t ->
  fst (keeps Date_of toLowerCase filter searchTerm event w)
  = fst (keeps Date_of toLowerCase filter searchTerm event (frozen t)).
Proof.
  intros H. rewrite !CatalogSpec.keeps_run. f_equal. f_equal.
  apply getBloomStatus_at_instant. unfold wall_clock. cbn.
  apply H. lia.
Qed.

(** While the clock stands still the list is the plain filter of the
    catalog by that test. *)
Lemma filteredEvents_steady events filter searchTerm : forall w t,
  steady w t ->
  fst (filteredEvents Date_of toLowerCase events filter searchTerm w)
  = List.filter
      (fun event => fst (keeps Date_of toLowerCase filter searchTerm event (frozen t)))
      events.
Proof.
  unfold filteredEvents.
  induction events as [|event events IH]; intros w t H; [reflexivity|].
  rewrite filterM_run. cbn [fst List.filter].
  rewrite keeps_world, (keeps_steady _ _ _ _ _ H).
  now rewrite (IH _ t (steady_next _ _ H)).
Qed.

Lemma filter_twice {A} (p : A -> bool) (l : list A) :
  List.filter p (List.filter p l) = List.filter p l.
Proof.
  induction l as [|x l IH]; cbn; [reflexivity|].
  destruct (p x) eqn:Hx; cbn; rewrite ?Hx, IH; reflexivity.
Qed.

(** Filtering is idempotent at one instant: filtering the filtered list
    again, by the same filter and term while the clock shows the same time,
    gives the same list. *)
Theorem filteredEvents_idempotent events filter searchTerm w w' t :
  steady w t -> steady w' t ->
  fst (filteredEvents Date_of toLowerCase
         (fst (filteredEvents Date_of toLowerCase events filter searchTerm w))
         filter searchTerm w')
  = fst (filteredEvents Date_of toLowerCase events filter searchTerm w).
Proof.
  intros H H'.
  rewrite (filteredEvents_steady _ _ _ w' t H').
  rewrite (filteredEvents_steady _ _ _ w t H).
  apply filter_twice.
Qed.

(** At one instant the three status filters split what "all" lists: the
    lengths of the "active", "soon" and "inactive" lists add up to the
    length of the "all" list, for any search term. *)
Theorem status_lists_add_up events searchTerm w t :
  steady w t ->
  let shown filter :=
    List.length (fst (filteredEvents Date_of toLowerCase events filter searchTerm w)) in
  (shown Active + shown Soon + shown Inactive = shown All)%nat.
Proof.
  intros H. cbv beta zeta.
  rewrite !(filteredEvents_steady _ _ _ w t H).
  induction events as [|event events IH]; [reflexivity|].
  cbn [List.filter]. rewrite !CatalogSpec.keeps_run.
  destruct (one_status_filter (peakTimeInterval event) (frozen t))
    as [(Ha & Hs & Hi)|[(Ha & Hs & Hi)|(Ha & Hs & Hi)]];
    rewrite Ha, Hs, Hi;
    change (matchesFilter All _) with true; cbn [andb];
    destruct (matchesSearch toLowerCase searchTerm event); cbn [List.length]; lia.
Qed.

End AnyParser.

Lemma filteredEvents_idempotent_witness :
  let events := [Samples.three_images; Samples.one_image] in
  let w := frozen 1710028800000 in
  steady w 1710028800000 /\
  fst (filteredEvents Date_parse toLowerCase
         (fst (filteredEvents Date_parse toLowerCase events Active
                 (units "valley") w))
         Active (units "valley") w)
  = fst (filteredEvents Date_parse toLowerCase events Active
           (units "valley") w).
Proof.
  split; [apply steady_frozen|].
  apply (filteredEvents_idempotent Date_parse toLowerCase
           [Samples.three_images; Samples.one_image] Active (units "valley")
           (frozen 1710028800000) (frozen 1710028800000) 1710028800000);
    apply steady_frozen.
Defined.

Lemma status_lists_add_up_witness :
  let events := [Samples.three_images; Samples.one_image] in
  let w := frozen 1710028800000 in
  steady w 1710028800000 /\
  (List.length (fst (filteredEvents Date_parse toLowerCase events Active [] w))
   + List.length (fst (filteredEvents Date_parse toLowerCase events Soon [] w))
   + List.length
       (fst (filteredEvents Date_parse toLowerCase events Inactive [] w))
   = List.length
       (fst (filteredEvents Date_parse toLowerCase events All [] w)))%nat.
Proof.
  split; [apply steady_frozen|].
  apply (status_lists_add_up Date_parse toLowerCase
           [Samples.three_images; Samples.one_image] []
           (frozen 1710028800000) 1710028800000).
  apply steady_frozen.
Defined.

Lemma found_by_own_fields_witness :
  let term := units "ANTELOPE valley" in
  SearchSpec.lowers_latin1 toLowerCase /\
  SearchSpec.latin1 term /\
  SearchSpec.latin1 (title Samples.three_images) /\
  SearchSpec.ci_equal term (title Samples.three_images) /\
  matchesSearch toLowerCase term Samples.three_images = true.
Proof.
  assert (SearchSpec.ci_equal (units "ANTELOPE valley")
                              (title Samples.three_images))
    as H by (apply ci_equal_lower; reflexivity).
  split; [exact toLowerCase_lowers_latin1|].
  split; [apply units_latin1|]. split; [apply units_latin1|].
  split; [exact H|].
  apply (found_by_own_fields toLowerCase (units "ANTELOPE valley")
           Samples.three_images).
  - exact toLowerCase_lowers_latin1.
  - apply units_latin1.
  - left. split; [apply units_latin1 | exact H].
Defined.

Lemma longer_term_narrows_witness :
  let events := [Samples.three_images; Samples.one_image] in
  let w := frozen 1710028800000 in
  SearchSpec.lowers_latin1 toLowerCase /\
  SearchSpec.latin1 (units "an" ++ units "TEL" ++ units "ope") /\
  subsequence
    (fst (filteredEvents Date_parse toLowerCase events All
            (units "an" ++ units "TEL" ++ units "ope") w))
    (fst (filteredEvents Date_parse toLowerCase events All (units "TEL") w)).
Proof.
  assert (SearchSpec.latin1 (units "an" ++ units "TEL" ++ units "ope")) as H
      by (repeat (apply latin1_app; split); apply units_latin1).
  split; [exact toLowerCase_lowers_latin1|]. split; [exact H|].
  apply (longer_term_narrows Date_parse toLowerCase
           [Samples.three_images; Samples.one_image] All
           (units "an") (units "TEL") (units "ope") (frozen 1710028800000)
           toLowerCase_lowers_latin1 H).
Defined.

(** Beyond U+00FF the lowering of a letter can depend on its neighbours,
    and a longer term can then find what a part of it does not: the title
    U+039F U+0394 U+039F U+03A3 is found by itself as a term, and not by
    its last letter alone. *)
Lemma longer_term_can_widen :
  let pre := [927; 916; 927]%N in
  matchesSearch toLowerCase (pre ++ Samples.capital_sigma ++ [])
                Samples.odos = true /\
  matchesSearch toLowerCase Samples.capital_sigma Samples.odos = false.
Proof. split; reflexivity. Qed.

End CatalogProps.

(** ** Further properties of the image viewer *)
Module ViewerProps.
Import EventsList ImageView ImageViewHandlers Samples.
Import ViewerSpec.

Ltac handlers_unfold :=
  unfold handleKeyDown, handleImageClick, handleMouseMove, onLoad, onError,
    hasImages, setZoomPosition in *.

(** In range, one step forward is a step modulo the length, and so is one
    step back. *)
Lemma goToNext_mod selectedEvent s :
  0 <= currentIndex s < currentData_length selectedEvent s ->
  currentIndex (goToNext selectedEvent s)
  = (currentIndex s + 1) mod currentData_length selectedEvent s.
Proof.
  intros H.
  assert (forall i len, 0 <= i < len ->
            (if i =? len - 1 then 0 else i + 1) = (i + 1) mod len) as Hmod.
  { intros i len Hi. destruct (Z.eqb_spec i (len - 1)) as [->|Hne].
    - replace (len - 1 + 1) with len by ring.
      symmetry. apply Z_mod_same_full.
    - symmetry. apply Z.mod_small. lia. }
  viewer_cases s selectedEvent; try lia; now apply Hmod.
Qed.

Lemma goToPrevious_mod selectedEvent s :
  0 <= currentIndex s < currentData_length selectedEvent s ->
  currentIndex (goToPrevious selectedEvent s)
  = (currentIndex s - 1) mod currentData_length selectedEvent s.
Proof.
  intros H.
  assert (forall i len, 0 <= i < len ->
            (if i =? 0 then len - 1 else i - 1) = (i - 1) mod len) as Hmod.
  { intros i len Hi. destruct (Z.eqb_spec i 0) as [->|Hne].
    - apply Z.mod_unique with (q := -1); lia.
    - symmetry. apply Z.mod_small. lia. }
  viewer_cases s selectedEvent; try lia; now apply Hmod.
Qed.

Lemma run_repeat_mod selectedEvent (a : Nav) (d : Z) :
  (forall s,
     0 <= currentIndex s < currentData_length selectedEvent s ->
     currentIndex (step selectedEvent s a)
     = (currentIndex s + d) mod currentData_length selectedEvent s) ->
  (forall len, in_range len a = true) ->
  forall k s,
    0 <= currentIndex s < currentData_length selectedEvent s ->
    currentIndex (run selectedEvent s (repeat a k))
    = (currentIndex s + Z.of_nat k * d) mod currentData_length selectedEvent s.
Proof.
  intros Hstep Ha k. induction k as [|k IH]; intros s Hs.
  - cbn [repeat run fold_left]. rewrite Z.mul_0_l, Z.add_0_r.
    symmetry. now apply Z.mod_small.
  - cbn [repeat run fold_left].
    pose proof (Ha (currentData_length selectedEvent s)) as Ha'.
    pose proof (step_in_range selectedEvent s a Hs Ha') as Hin.
    pose proof (currentData_length_viewMode selectedEvent _ _
                  (step_viewMode selectedEvent s a)) as Hlen.
    unfold run in IH. rewrite IH by now rewrite Hlen.
    rewrite Hlen, (Hstep s Hs), Z.add_mod_idemp_l by lia.
    f_equal. lia.
Qed.

(** Pressing next k times from a valid index moves to (index + k) mod
    length, and pressing previous k times to (index - k) mod length; so
    after length presses either way the viewer is back on the same image. *)
Theorem navigation_cycles selectedEvent s k :
  let len := currentData_length selectedEvent s in
  0 <= currentIndex s < len ->
  currentIndex (run selectedEvent s (repeat Next k))
    = (currentIndex s + Z.of_nat k) mod len /\
  currentIndex (run selectedEvent s (repeat Previous k))
    = (currentIndex s - Z.of_nat k) mod len /\
  currentIndex (run selectedEvent s (repeat Next (Z.to_nat len)))
    = currentIndex s /\
  currentIndex (run selectedEvent s (repeat Previous (Z.to_nat len)))
    = currentIndex s.
Proof.
  intros len H.
  pose proof (run_repeat_mod selectedEvent Next 1
                (goToNext_mod selectedEvent) (fun _ => eq_refl)) as Hn.
  pose proof (run_repeat_mod selectedEvent Previous (-1)
                (goToPrevious_mod selectedEvent) (fun _ => eq_refl)) as Hp.
  repeat split.
  - rewrite (Hn k s H). f_equal. lia.
  - rewrite (Hp k s H). f_equal. lia.
  - rewrite (Hn _ s H), Z2Nat.id by (fold len; lia). fold len.
    rewrite Z.mul_1_r.
    replace (currentIndex s + len) with (currentIndex s + 1 * len) by ring.
    rewrite Z.mod_add by lia. now apply Z.mod_small.
  - rewrite (Hp _ s H), Z2Nat.id by (fold len; lia). fold len.
    replace (currentIndex s + len * -1)
      with (currentIndex s + (-1) * len) by ring.
    rewrite Z.mod_add by lia. now apply Z.mod_small.
Qed.

Lemma navigation_cycles_witness :
  let s := setViewMode gallery initial in
  0 <= currentIndex s < currentData_length (Some three_images) s /\
  currentIndex (run (Some three_images) s (repeat Next 3)) = currentIndex s.
Proof.
  split; [vm_compute; split; [discriminate | reflexivity]|].
  apply (navigation_cycles (Some three_images)
           (setViewMode gallery initial) 0).
  vm_compute; split; [discriminate | reflexivity].
Defined.

(** In range, an arrow is [goToImage] to the neighbouring index. *)
Lemma goToNext_as_goToImage selectedEvent s :
  0 <= currentIndex s < currentData_length selectedEvent s ->
  goToNext selectedEvent s
  = goToImage (if currentIndex s =? currentData_length selectedEvent s - 1
               then 0 else currentIndex s + 1) s.
Proof.
  intros H. viewer_cases s selectedEvent; first [lia | reflexivity].
Qed.

Lemma goToPrevious_as_goToImage selectedEvent s :
  0 <= currentIndex s < currentData_length selectedEvent s ->
  goToPrevious selectedEvent s
  = goToImage (if currentIndex s =? 0
               then currentData_length selectedEvent s - 1
               else currentIndex s - 1) s.
Proof.
  intros H. viewer_cases s selectedEvent; first [lia | reflexivity].
Qed.

Lemma goToImage_twice i j s : goToImage j (goToImage i s) = goToImage j s.
Proof. destruct s as [[| |] gi si ci zoomed origin loaded]; reflexivity. Qed.

Lemma goToImage_current s i :
  i = currentIndex s ->
  goToImage i s = setImageLoaded false (setIsZoomed false s).
Proof.
  intros ->. destruct s as [[| |] gi si ci zoomed origin loaded]; reflexivity.
Qed.

Lemma goToImage_index i s : currentIndex (goToImage i s) = i.
Proof. destruct s as [[| |] gi si ci zoomed origin loaded]; reflexivity. Qed.

Lemma goToImage_length selectedEvent i s :
  currentData_length selectedEvent (goToImage i s)
  = currentData_length selectedEvent s.
Proof.
  apply currentData_length_viewMode.
  destruct s as [[| |] gi si ci zoomed origin loaded]; reflexivity.
Qed.

(** From a valid index, next then previous, and previous then next, lead
    back to the same state with the zoom left and the image marked as not
    loaded. *)
Theorem next_previous_undo selectedEvent s :
  0 <= currentIndex s < currentData_length selectedEvent s ->
  goToPrevious selectedEvent (goToNext selectedEvent s)
  = setImageLoaded false (setIsZoomed false s) /\
  goToNext selectedEvent (goToPrevious selectedEvent s)
  = setImageLoaded false (setIsZoomed false s).
Proof.
  intros H. split.
  - rewrite (goToNext_as_goToImage _ _ H).
    rewrite goToPrevious_as_goToImage;
      rewrite goToImage_index, goToImage_length.
    + rewrite goToImage_twice. apply goToImage_current.
      destruct (Z.eqb_spec (currentIndex s)
                  (currentData_length selectedEvent s - 1));
        match goal with
        | |- context [Z.eqb ?a ?b] => destruct (Z.eqb_spec a b)
        end; lia.
    + destruct (Z.eqb_spec (currentIndex s)
                  (currentData_length selectedEvent s - 1)); lia.
  - rewrite (goToPrevious_as_goToImage _ _ H).
    rewrite goToNext_as_goToImage;
      rewrite goToImage_index, goToImage_length.
    + rewrite goToImage_twice. apply goToImage_current.
      destruct (Z.eqb_spec (currentIndex s) 0);
        match goal with
        | |- context [Z.eqb ?a ?b] => destruct (Z.eqb_spec a b)
        end; lia.
    + destruct (Z.eqb_spec (currentIndex s) 0); lia.
Qed.

Lemma next_previous_undo_witness :
  let s := setViewMode gallery initial in
  0 <= currentIndex s < currentData_length (Some three_images) s /\
  goToPrevious (Some three_images) (goToNext (Some three_images) s)
  = setImageLoaded false (setIsZoomed false s).
Proof.
  split; [vm_compute; split; [discriminate | reflexivity]|].
  apply (next_previous_undo (Some three_images) (setViewMode gallery initial)).
  vm_compute; split; [discriminate | reflexivity].
Defined.

(** The arrows touch the active mode's index and the two flags only: the
    mode, the zoom origin and the other two indices stay, and unless the
    state is unchanged both flags are cleared. *)
Theorem navigation_frame selectedEvent s s' :
  s' = goToPrevious selectedEvent s \/ s' = goToNext selectedEvent s ->
  viewMode s' = viewMode s /\
  zoomPosition s' = zoomPosition s /\
  (viewMode s <> gallery -> currentImageIndex s' = currentImageIndex s) /\
  (viewMode s <> satellite ->
   currentSatelliteIndex s' = currentSatelliteIndex s) /\
  (viewMode s <> graph -> currentGraphIndex s' = currentGraphIndex s) /\
  (s' = s \/ (isZoomed s' = false /\ imageLoaded s' = false)).
Proof.
  intros [-> | ->]; viewer_cases s selectedEvent;
    repeat split; intros; try congruence; auto.
Qed.

Lemma navigation_frame_witness :
  let s := mkState gallery 2 1 0 true (50 # 1, 50 # 1)%Q true in
  goToNext (Some three_images) s
  = mkState gallery 0 1 0 false (50 # 1, 50 # 1)%Q false /\
  currentSatelliteIndex (goToNext (Some three_images) s)
  = currentSatelliteIndex s.
Proof.
  split; [reflexivity|].
  apply (navigation_frame (Some three_images)
           (mkState gallery 2 1 0 true (50 # 1, 50 # 1)%Q true)
           (goToNext (Some three_images)
              (mkState gallery 2 1 0 true (50 # 1, 50 # 1)%Q true))).
  - right. reflexivity.
  - discriminate.
Defined.

(** The guard of the click handler is the emptiness of the collection
    shown. *)
Lemma hasImages_length selectedEvent s :
  match hasImages selectedEvent s with
  | None | Some 0 => currentData_length selectedEvent s = 0
  | Some _ => 0 < currentData_length selectedEvent s
  end.
Proof.
  handlers_unfold. viewer_cases s selectedEvent; lia.
Qed.

Lemma currentData_length_nonneg selectedEvent s :
  0 <= currentData_length selectedEvent s.
Proof.
  unfold currentData_length.
  destruct selectedEvent as [e|]; [|lia].
  destruct (viewMode s); try apply Nat2Z.is_nonneg.
  destruct (graphImages e); [apply Nat2Z.is_nonneg | lia].
Qed.

Lemma click_empty selectedEvent x y s :
  currentData_length selectedEvent s = 0 ->
  handleImageClick selectedEvent x y s = s.
Proof.
  intros H0. pose proof (hasImages_length selectedEvent s) as Hlen.
  unfold handleImageClick.
  destruct (hasImages selectedEvent s) as [[| |]|]; first [reflexivity | lia].
Qed.

Lemma click_nonempty selectedEvent x y s :
  0 < currentData_length selectedEvent s ->
  handleImageClick selectedEvent x y s
  = (if negb (isZoomed s) then setIsZoomed true (setZoomPosition (x, y) s)
     else setIsZoomed false s).
Proof.
  intros Hpos. pose proof (hasImages_length selectedEvent s) as Hlen.
  unfold handleImageClick.
  destruct (hasImages selectedEvent s) as [[| |]|]; first [reflexivity | lia].
Qed.

(** A click on the image flips the zoom when the collection shown has
    images, recording the click position as the origin on the way in, and
    does nothing when it has none; it never changes the mode, an index or
    the loaded flag.  Two clicks leave the zoom as it was. *)
Theorem click_toggles_zoom selectedEvent x y s :
  let s1 := handleImageClick selectedEvent x y s in
  viewMode s1 = viewMode s /\
  currentImageIndex s1 = currentImageIndex s /\
  currentSatelliteIndex s1 = currentSatelliteIndex s /\
  currentGraphIndex s1 = currentGraphIndex s /\
  imageLoaded s1 = imageLoaded s /\
  (currentData_length selectedEvent s = 0 -> s1 = s) /\
  (0 < currentData_length selectedEvent s ->
   isZoomed s1 = negb (isZoomed s) /\
   zoomPosition s1 = (if isZoomed s then zoomPosition s else (x, y)) /\
   isZoomed (handleImageClick selectedEvent x y s1) = isZoomed s).
Proof.
  cbv zeta.
  destruct (Z.eq_dec (currentData_length selectedEvent s) 0) as [H0|H0].
  - rewrite (click_empty selectedEvent x y s H0).
    repeat split; intros; try reflexivity; lia.
  - assert (0 < currentData_length selectedEvent s) as Hpos
        by (pose proof (currentData_length_nonneg selectedEvent s); lia).
    assert (viewMode (handleImageClick selectedEvent x y s) = viewMode s)
      as Hmode.
    { rewrite (click_nonempty selectedEvent x y s Hpos).
      destruct s as [mode gi si ci [|] origin loaded]; reflexivity. }
    rewrite (click_nonempty selectedEvent x y
               (handleImageClick selectedEvent x y s))
      by now rewrite (currentData_length_viewMode _ _ _ Hmode).
    rewrite (click_nonempty selectedEvent x y s Hpos).
    destruct s as [mode gi si ci [|] origin loaded]; cbn;
      repeat split; intros; try reflexivity; lia.
Qed.

Lemma click_toggles_zoom_witness :
  let s := setViewMode gallery initial in
  0 < currentData_length (Some three_images) s /\
  isZoomed (handleImageClick (Some three_images) (30 # 1) (40 # 1) s) = true.
Proof.
  split; [reflexivity|].
  apply (click_toggles_zoom (Some three_images) (30 # 1) (40 # 1)
           (setViewMode gallery initial)).
  reflexivity.
Defined.

(** Moving the pointer changes nothing while not zoomed.  While zoomed it
    changes the zoom origin only, to the pointer position with each
    coordinate clamped to [0, 100]: a coordinate below 0 becomes 0, one
    above 100 becomes 100, and one in between is kept. *)
Theorem mouse_move_clamps_origin x y s :
  let s1 := handleMouseMove x y s in
  (isZoomed s = false -> s1 = s) /\
  (isZoomed s = true ->
   s1 = setZoomPosition (zoomPosition s1) s /\
   (0 <= fst (zoomPosition s1) <= 100)%Q /\
   (0 <= snd (zoomPosition s1) <= 100)%Q /\
   ((0 <= x <= 100)%Q -> (fst (zoomPosition s1) == x)%Q) /\
   ((0 <= y <= 100)%Q -> (snd (zoomPosition s1) == y)%Q) /\
   ((x < 0)%Q -> (fst (zoomPosition s1) == 0)%Q) /\
   ((100 < x)%Q -> (fst (zoomPosition s1) == 100)%Q) /\
   ((y < 0)%Q -> (snd (zoomPosition s1) == 0)%Q) /\
   ((100 < y)%Q -> (snd (zoomPosition s1) == 100)%Q)).
Proof.
  cbv zeta. unfold handleMouseMove.
  destruct s as [mode gi si ci [|] origin loaded]; cbn [isZoomed negb].
  - split; [discriminate|]. intros _. cbn.
    assert (forall v, (0 <= Qmax 0 (Qmin 100 v) <= 100)%Q) as Hb.
    { intros v. split; [apply Q.le_max_l|].
      apply Q.max_lub; [discriminate | apply Q.le_min_l]. }
    assert (forall v, (0 <= v <= 100)%Q -> (Qmax 0 (Qmin 100 v) == v)%Q)
      as He.
    { intros v [Hlo Hhi]. rewrite (Q.min_r 100 v Hhi). now apply Q.max_r. }
    assert (forall v, (v < 0)%Q -> (Qmax 0 (Qmin 100 v) == 0)%Q) as Hlow.
    { intros v Hv.
      assert (v <= 100)%Q as Hhi
          by (apply Qlt_le_weak, (Qlt_trans _ 0); [exact Hv | reflexivity]).
      rewrite (Q.min_r 100 v Hhi). apply Q.max_l. now apply Qlt_le_weak. }
    assert (forall v, (100 < v)%Q -> (Qmax 0 (Qmin 100 v) == 100)%Q) as Hhigh.
    { intros v Hv. rewrite (Q.min_l 100 v (Qlt_le_weak _ _ Hv)).
      apply Q.max_r. discriminate. }
    repeat split; try apply Hb; intros;
      first [now apply He | now apply Hlow | now apply Hhigh].
  - split; [reflexivity | discriminate].
Qed.

Lemma mouse_move_clamps_origin_witness :
  let s := mkState gallery 0 0 0 true (50 # 1, 50 # 1)%Q true in
  isZoomed s = true /\ (100 < 130 # 1)%Q /\ (-5 # 1 < 0)%Q /\
  (fst (zoomPosition (handleMouseMove (130 # 1) (-5 # 1) s)) == 100)%Q /\
  (snd (zoomPosition (handleMouseMove (130 # 1) (-5 # 1) s)) == 0)%Q.
Proof.
  pose proof (mouse_move_clamps_origin (130 # 1) (-5 # 1)
                (mkState gallery 0 0 0 true (50 # 1, 50 # 1)%Q true)) as H.
  cbv zeta in H. destruct H as [_ H]. specialize (H eq_refl).
  split; [reflexivity|]. split; [reflexivity|]. split; [reflexivity|].
  split; apply H; reflexivity.
Defined.

End ViewerProps.

(** ** The page and the viewer together *)
Module PageProps.
Import EventsList ImageView ImageViewHandlers Page Samples.
Import ViewerSpec.

(** With distinct ids, an id names one event of the catalog. *)
Lemma same_id_same_event (catalog : list SuperbloomEventData) e1 e2 :
  NoDup (map id catalog) -> In e1 catalog -> In e2 catalog ->
  id e1 = id e2 -> e1 = e2.
Proof.
  induction catalog as [|e catalog IH]; intros Hnd H1 H2 Hid; [easy|].
  cbn in Hnd. inversion Hnd as [|? ? Hnotin Hnd']; subst.
  destruct H1 as [->|H1], H2 as [->|H2]; auto.
  - exfalso. apply Hnotin. rewrite Hid. now apply in_map.
  - exfalso. apply Hnotin. rewrite <- Hid. now apply in_map.
Qed.

Lemma index_ok_zero len : index_ok 0 len.
Proof. now left. Qed.

Lemma index_ok_previous i len :
  index_ok i len -> 0 < len ->
  index_ok (if i =? 0 then len - 1 else i - 1) len.
Proof.
  unfold index_ok. intros H Hlen. destruct (Z.eqb_spec i 0); lia.
Qed.

Lemma index_ok_next i len :
  index_ok i len -> 0 < len ->
  index_ok (if i =? len - 1 then 0 else i + 1) len.
Proof.
  unfold index_ok. intros H Hlen. destruct (Z.eqb_spec i (len - 1)); lia.
Qed.

(** Split on the length of one collection: empty, or with entries. *)
Ltac length_cases l :=
  let n := fresh "n" in
  let Hn := fresh "Hn" in
  remember (Z.of_nat (List.length l)) as n eqn:Hn;
  assert (0 <= n) by (subst n; apply Nat2Z.is_nonneg);
  clear Hn; destruct n; [ | | lia].

Ltac fit_by lem :=
  cbn [currentImageIndex currentSatelliteIndex currentGraphIndex viewMode];
  repeat split; first [assumption | apply lem; [assumption | lia]].

(** An arrow keeps every index fit, for any event. *)
Lemma arrow_indices_ok o s c :
  c = Previous \/ c = Next ->
  indices_ok (mkApp o s) ->
  indices_ok (mkApp o (step o s c)).
Proof.
  unfold indices_ok. cbn [viewer selectedEvent].
  intros Hc (Hg & Hs & Hr).
  destruct s as [mode gi si ci zoomed origin loaded].
  destruct o as [e|];
    [|destruct Hc as [-> | ->]; destruct mode; viewer_unfold;
      repeat split; assumption].
  destruct Hc as [-> | ->]; destruct mode; viewer_unfold.
  - length_cases (satelliteImages e); fit_by index_ok_previous.
  - length_cases (images e); fit_by index_ok_previous.
  - destruct (graphImages e) as [graphs|];
      [length_cases graphs; fit_by index_ok_previous
      | repeat split; assumption].
  - length_cases (satelliteImages e); fit_by index_ok_next.
  - length_cases (images e); fit_by index_ok_next.
  - destruct (graphImages e) as [graphs|];
      [length_cases graphs; fit_by index_ok_next
      | repeat split; assumption].
Qed.

(** So does a thumbnail or year button the render offers. *)
Lemma thumbnail_indices_ok o s index :
  0 <= index < currentData_length o s ->
  indices_ok (mkApp o s) ->
  indices_ok (mkApp o (goToImage index s)).
Proof.
  unfold indices_ok, index_ok. cbn [viewer selectedEvent].
  intros Hin (Hg & Hs & Hr).
  destruct s as [mode gi si ci zoomed origin loaded].
  destruct mode; viewer_unfold; repeat split; try assumption; now right.
Qed.

Ltac flags_only :=
  match goal with
  | H : indices_ok _ |- indices_ok _ =>
      unfold indices_ok in *; cbn [viewer selectedEvent] in *; exact H
  end.

(** One offered input keeps every index fit and the selected event in the
    catalog. *)
Lemma react_keeps_fit catalog a i :
  NoDup (map id catalog) ->
  indices_ok a ->
  (forall e, selectedEvent a = Some e -> In e catalog) ->
  offered catalog a i ->
  indices_ok (react a i)
  /\ (forall e, selectedEvent (react a i) = Some e -> In e catalog).
Proof.
  intros Hnd Hok Hsel Hoff. destruct a as [o s].
  cbn [selectedEvent viewer] in Hsel.
  destruct i as [event|m|c|key|x y|x y| |]; cbn [react selectedEvent viewer].
  - (* Focus *)
    cbn [offered] in Hoff. unfold handleEventFocus.
    cbn [selectedEvent viewer].
    split; [|intros e [= <-]; exact Hoff].
    destruct o as [e'|]; cbn [effect_key option_map key_eqb].
    + destruct (Z.eqb_spec (id e') (id event)) as [Hid|Hid].
      * assert (e' = event) as ->
            by (apply (same_id_same_event catalog); auto).
        exact Hok.
      * unfold indices_ok. cbn. repeat split; apply index_ok_zero.
    + unfold indices_ok. cbn. repeat split; apply index_ok_zero.
  - split; [|exact Hsel].
    destruct s as [mode gi si ci zoomed origin loaded]. flags_only.
  - split; [|exact Hsel].
    destruct c as [| |index].
    + apply arrow_indices_ok; auto.
    + apply arrow_indices_ok; auto.
    + cbn [offered selectedEvent viewer] in Hoff.
      apply thumbnail_indices_ok; [apply Hoff | exact Hok].
  - split; [|exact Hsel]. unfold handleKeyDown.
    destruct (key =? "ArrowLeft")%string.
    { apply (arrow_indices_ok o s Previous); auto. }
    destruct (key =? "ArrowRight")%string.
    { apply (arrow_indices_ok o s Next); auto. }
    destruct (key =? "Escape")%string; [|exact Hok].
    destruct s as [mode gi si ci zoomed origin loaded]. flags_only.
  - split; [|exact Hsel]. unfold handleImageClick.
    destruct (hasImages o s) as [[| |]|]; try exact Hok;
      destruct s as [mode gi si ci [|] origin loaded]; flags_only.
  - split; [|exact Hsel]. unfold handleMouseMove.
    destruct s as [mode gi si ci [|] origin loaded]; flags_only.
  - split; [|exact Hsel].
    destruct s as [mode gi si ci zoomed origin loaded]. flags_only.
  - split; [|exact Hsel].
    destruct s as [mode gi si ci zoomed origin loaded]. flags_only.
Qed.

Lemma play_keeps_fit catalog inputs : forall a,
  NoDup (map id catalog) ->
  indices_ok a ->
  (forall e, selectedEvent a = Some e -> In e catalog) ->
  session catalog a inputs ->
  indices_ok (play a inputs)
  /\ (forall e, selectedEvent (play a inputs) = Some e -> In e catalog).
Proof.
  induction inputs as [|i inputs IH]; intros a Hnd Hok Hsel Hses.
  - cbn. auto.
  - cbn [session] in Hses. destruct Hses as [Hoff Hses].
    destruct (react_keeps_fit catalog a i Hnd Hok Hsel Hoff) as [Hok' Hsel'].
    cbn [play fold_left]. now apply IH.
Qed.

Lemma at_index_in_range {A} (arr : list A) (i : Z) :
  0 <= i < Z.of_nat (List.length arr) -> exists x, at_index arr i = Some x.
Proof.
  intros H. unfold at_index.
  destruct (Z.ltb_spec i 0); [lia|].
  destruct (nth_error arr (Z.to_nat i)) eqn:Hn; [eauto|].
  apply nth_error_None in Hn. lia.
Qed.

(** Fit indices make the render's lookup succeed: when the collection
    shown is not empty, [currentImage] is an entry of it. *)
Lemma at_index_defined_iff {A} (arr : list A) (i : Z) :
  (exists x, at_index arr i = Some x) <-> 0 <= i < Z.of_nat (List.length arr).
Proof.
  split; [|apply at_index_in_range].
  intros [x Hx]. unfold at_index in Hx.
  destruct (Z.ltb_spec i 0); [discriminate|].
  assert (Hn : nth_error arr (Z.to_nat i) <> None) by congruence.
  apply nth_error_Some in Hn. lia.
Qed.

Lemma option_map_defined_iff {A B} (f : A -> B) (o : option A) :
  (exists y, option_map f o = Some y) <-> (exists x, o = Some x).
Proof.
  destruct o as [x|]; cbn; split; intros [z Hz]; try discriminate; eauto.
Qed.

(** The render's lookup is defined exactly when the index of the mode shown
    is a position of that mode's collection. *)
Lemma lookup_defined_iff e s :
  (exists src, currentImage e s = Some src)
  <-> 0 <= currentIndex s < currentData_length (Some e) s.
Proof.
  destruct s as [mode gi si ci zoomed origin loaded].
  unfold currentImage, currentIndex, currentData_length.
  destruct mode; viewer_unfold.
  - rewrite option_map_defined_iff. apply at_index_defined_iff.
  - apply at_index_defined_iff.
  - rewrite option_map_defined_iff, at_index_defined_iff.
    destruct (graphImages e) as [graphs|]; cbn [List.length]; reflexivity.
Qed.

Lemma fit_lookup_defined e s :
  indices_ok (mkApp (Some e) s) ->
  0 < currentData_length (Some e) s ->
  exists src, currentImage e s = Some src.
Proof.
  unfold indices_ok, index_ok. cbn [viewer selectedEvent].
  intros (Hg & Hs & Hr) Hlen.
  destruct s as [mode gi si ci zoomed origin loaded].
  unfold currentImage. destruct mode; viewer_unfold.
  - destruct (at_index_in_range (satelliteImages e) si) as [x ->]; [lia|].
    cbn. eauto.
  - apply at_index_in_range. lia.
  - destruct (graphImages e) as [graphs|]; [|lia].
    destruct (at_index_in_range graphs ci) as [x ->]; [lia|].
    cbn. eauto.
Qed.

(** Through any session on a catalog with distinct ids, starting from the
    mounted page, every mode's index stays 0 or a position of the selected
    event's collection of that mode, and the selected event is one of the
    catalog's. *)
Theorem session_keeps_indices_fit catalog inputs :
  NoDup (map id catalog) ->
  session catalog mounted inputs ->
  indices_ok (play mounted inputs)
  /\ (forall e, selectedEvent (play mounted inputs) = Some e ->
                In e catalog).
Proof.
  intros Hnd Hses. apply play_keeps_fit; auto.
  - unfold indices_ok. cbn. repeat split; apply index_ok_zero.
  - discriminate.
Qed.

(** The render that precedes the reset effect is not covered by what
    follows: it meets the new event with the old indices, and its lookup
    can be out of range. *)
Lemma render_before_effect_out_of_range :
  let a := play mounted [Focus three_images; Tab gallery; Control (Image 2)] in
  let r := render_before_effect one_image a in
  currentData_length (selectedEvent r) (viewer r) = 1 /\
  currentImageIndex (viewer r) = 2 /\
  currentImage one_image (viewer r) = None /\
  currentImageIndex (viewer (handleEventFocus one_image a)) = 0.
Proof. cbv zeta. repeat split. Qed.

(** In every state the page settles in, each input handled and the reset
    effect run, the lookup of the current image is in range: after any
    such session, if the collection shown is not empty, the current image
    is one of its entries.  The one render between a change of the
    selected event and the reset effect is a different matter: it looks the
    new event up with the old indices, and its lookup is defined exactly
    when the old index of the mode shown is a position of the new event's
    collection. *)
Theorem session_image_defined catalog inputs e :
  NoDup (map id catalog) ->
  session catalog mounted inputs ->
  selectedEvent (play mounted inputs) = Some e ->
  0 < currentData_length (Some e) (viewer (play mounted inputs)) ->
  (exists src, currentImage e (viewer (play mounted inputs)) = Some src)
  /\ (forall event,
        let r := render_before_effect event (play mounted inputs) in
        selectedEvent r = Some event
        /\ viewer r = viewer (play mounted inputs)
        /\ ((exists src, currentImage event (viewer r) = Some src)
            <-> 0 <= currentIndex (viewer (play mounted inputs))
                  < currentData_length (Some event)
                                       (viewer (play mounted inputs)))).
Proof.
  intros Hnd Hses Hsel Hlen. split.
  - destruct (play_keeps_fit catalog inputs mounted Hnd) as [Hok _]; auto.
    + unfold indices_ok. cbn. repeat split; apply index_ok_zero.
    + discriminate.
    + apply fit_lookup_defined; [|exact Hlen].
      destruct (play mounted inputs) as [o s]. cbn in *. now subst o.
  - intros event. cbv zeta. cbn [render_before_effect selectedEvent viewer].
    split; [reflexivity|]. split; [reflexivity|].
    apply lookup_defined_iff.
Qed.

Lemma sample_ids_distinct : NoDup (map id [three_images; one_image]).
Proof.
  cbn. constructor; [|constructor; [|constructor]]; cbn; intuition discriminate.
Qed.

Lemma sample_session :
  session [three_images; one_image] mounted
          [Focus three_images; Tab gallery; Control Next;
           KeyDown "ArrowLeft"; Control (Image 2); ClickImage (30 # 1) (40 # 1);
           Focus one_image; Tab gallery; KeyDown "ArrowRight"].
Proof.
  cbn. repeat split; auto; try discriminate.
Qed.

Lemma session_keeps_indices_fit_witness :
  let catalog := [three_images; one_image] in
  let inputs := [Focus three_images; Tab gallery; Control Next;
                 KeyDown "ArrowLeft"; Control (Image 2);
                 ClickImage (30 # 1) (40 # 1);
                 Focus one_image; Tab gallery; KeyDown "ArrowRight"] in
  NoDup (map id catalog) /\ session catalog mounted inputs /\
  indices_ok (play mounted inputs).
Proof.
  split; [exact sample_ids_distinct|]. split; [exact sample_session|].
  apply (session_keeps_indices_fit [three_images; one_image]
           [Focus three_images; Tab gallery; Control Next;
            KeyDown "ArrowLeft"; Control (Image 2);
            ClickImage (30 # 1) (40 # 1);
            Focus one_image; Tab gallery; KeyDown "ArrowRight"]
           sample_ids_distinct sample_session).
Defined.

Lemma session_image_defined_witness :
  let catalog := [three_images; one_image] in
  let inputs := [Focus three_images; Tab gallery; Control Next;
                 KeyDown "ArrowLeft"; Control (Image 2);
                 ClickImage (30 # 1) (40 # 1);
                 Focus one_image; Tab gallery; KeyDown "ArrowRight"] in
  NoDup (map id catalog) /\ session catalog mounted inputs /\
  selectedEvent (play mounted inputs) = Some one_image /\
  0 < currentData_length (Some one_image) (viewer (play mounted inputs)) /\
  exists src, currentImage one_image (viewer (play mounted inputs)) = Some src.
Proof.
  split; [exact sample_ids_distinct|]. split; [exact sample_session|].
  split; [reflexivity|]. split; [reflexivity|].
  exact (proj1 (session_image_defined [three_images; one_image]
           [Focus three_images; Tab gallery; Control Next;
            KeyDown "ArrowLeft"; Control (Image 2);
            ClickImage (30 # 1) (40 # 1);
            Focus one_image; Tab gallery; KeyDown "ArrowRight"]
           one_image sample_ids_distinct sample_session
           eq_refl eq_refl)).
Defined.

(** Focusing an event resets the viewer exactly when its id differs from
    the selected one's (or none is selected): then the mode is satellite,
    the three indices are 0 and both flags are cleared, the zoom origin
    alone surviving.  Focusing an event with the selected id again leaves
    the viewer as it is. *)
Theorem focus_resets_on_new_id event a :
  selectedEvent (handleEventFocus event a) = Some event /\
  (effect_key (selectedEvent a) = Some (id event) ->
   viewer (handleEventFocus event a) = viewer a) /\
  (effect_key (selectedEvent a) <> Some (id event) ->
   viewer (handleEventFocus event a)
   = mkState satellite 0 0 0 false (zoomPosition (viewer a)) false).
Proof.
  unfold handleEventFocus, effect_key. cbn [selectedEvent viewer].
  split; [reflexivity|].
  destruct (selectedEvent a) as [e|]; cbn [option_map key_eqb].
  - destruct (Z.eqb_spec (id e) (id event)) as [Hid|Hid]; split; intros H;
      try reflexivity; congruence.
  - split; [discriminate | reflexivity].
Qed.

Lemma focus_resets_on_new_id_witness :
  let a := mkApp (Some three_images)
                 (mkState gallery 2 1 0 true (30 # 1, 40 # 1)%Q true) in
  effect_key (selectedEvent a) <> Some (id one_image) /\
  viewer (handleEventFocus one_image a)
  = mkState satellite 0 0 0 false (30 # 1, 40 # 1)%Q false.
Proof.
  assert (effect_key (Some three_images) <> Some (id one_image)) as H
    by discriminate.
  split; [exact H|].
  apply (focus_resets_on_new_id one_image
           (mkApp (Some three_images)
                  (mkState gallery 2 1 0 true (30 # 1, 40 # 1)%Q true))).
  exact H.
Defined.

(** After an event is focused, a card is marked as selected exactly when
    it carries the focused event's id and that id is not 0: an event whose
    id is 0 is never marked. *)
Theorem selected_card_has_focused_id event a card :
  isSelected (handleEventFocus event a) card = true
  <-> id card = id event /\ id event <> 0.
Proof.
  unfold isSelected, selectedEventId, handleEventFocus.
  cbn [selectedEvent].
  destruct (Z.eqb_spec (id event) 0) as [H0|H0].
  - split; [discriminate | intros [_ H]; contradiction].
  - rewrite Z.eqb_eq. split; [intros H; split; congruence | intros [H _]; congruence].
Qed.

End PageProps.

(** ** The earlier events list *)
Module LegacyProps.
Import LegacyEventsList.

Lemma matchesFilter_All event : matchesFilter All event = true.
Proof. reflexivity. Qed.

Lemma matchesFilter_Active event : matchesFilter Active event = isActive event.
Proof. unfold matchesFilter. cbn. now destruct (isActive event). Qed.

Lemma matchesFilter_Inactive event :
  matchesFilter Inactive event = negb (isActive event).
Proof. reflexivity. Qed.

(** The "active" and "inactive" lists split what "all" lists for the same
    search term: together they are a rearrangement of it, so every event
    found by the search is under exactly one of the two; and with "all"
    and no search term the whole catalog is listed. *)
Theorem legacy_lists_split (toLowerCase : JS.ustring -> JS.ustring)
        events searchTerm :
  Permutation
    (filteredEvents toLowerCase events Active searchTerm
     ++ filteredEvents toLowerCase events Inactive searchTerm)
    (filteredEvents toLowerCase events All searchTerm)
  /\ filteredEvents toLowerCase events All [] = events.
Proof.
  unfold filteredEvents. split.
  - induction events as [|event events IH]; cbn [List.filter app];
      [constructor|].
    rewrite matchesFilter_Active, matchesFilter_Inactive, matchesFilter_All.
    destruct (isActive event), (matchesSearch toLowerCase searchTerm event);
      cbn [negb andb app]; try exact IH.
    + now constructor.
    + apply Permutation_sym, Permutation_cons_app, Permutation_sym, IH.
  - induction events as [|event events IH]; cbn [List.filter];
      [reflexivity|].
    rewrite matchesFilter_All.
    change (matchesSearch toLowerCase [] event) with true. cbn [andb].
    now rewrite IH.
Qed.

End LegacyProps.
